(** * Reservation lifecycle and optimistic unread counter of the library user app

    A shallow embedding of the pure reservation logic of
    [src/pages/my/MyBooksPage.tsx] (status resolver, relevance comparator,
    per-book picker) and of the reservation part of
    [src/features/book/ui/BookDetails.tsx] (action guards, error
    classification, the four reservation mutations), followed by the
    properties the specification states about them. *)

From Stdlib Require Import ZArith String Ascii Lia.
From Stdlib Require QArith.
From Stdlib Require Import Sorted.
From stdpp Require Import base option list gmap strings.

Local Open Scope Z_scope.

(** ** JavaScript values the code observes *)

(** The result of [Date.prototype.getTime()]: a count of milliseconds, or
    [NaN] when the date is invalid. *)
Inductive number : Type :=
  | NaN
  | Num (ms : Z).

(** [a > b] and [a < b] on numbers: every comparison with [NaN] is false. *)
Definition js_gt (a b : number) : bool :=
  match a, b with
  | Num x, Num y => bool_decide (y < x)
  | _, _ => false
  end.

Definition js_lt (a b : number) : bool :=
  match a, b with
  | Num x, Num y => bool_decide (x < y)
  | _, _ => false
  end.

(** A timestamp string as the backend sends it, kept up to what the code can
    observe of it: whether it is the empty string (the only falsy string) and
    what [new Date(s).getTime()] makes of it. *)
Inductive DateString : Type :=
  | EmptyText                (* the empty string: falsy, an invalid date *)
  | Unparsable               (* a non-empty string Date cannot parse *)
  | Instant (ms : Z).        (* a non-empty string denoting an instant *)

(** Truthiness of an optional string field ([undefined], [null] and the empty
    string are falsy). *)
Definition truthy (field : option DateString) : bool :=
  match field with
  | None | Some EmptyText => false
  | Some Unparsable | Some (Instant _) => true
  end.

(** The argument of [new Date(...)] in the code: a string or the number 0. *)
Inductive DateArg : Type :=
  | OfString (s : DateString)
  | OfNumber (n : Z).

Definition Date_getTime (arg : DateArg) : number :=
  match arg with
  | OfString (Instant ms) => Num ms
  | OfString _ => NaN
  | OfNumber n => Num n
  end.

(** [a ?? b]: the left operand unless it is [undefined] or [null]. *)
Definition nullish {A : Type} (a : option A) (b : A) : A :=
  match a with
  | Some v => v
  | None => b
  end.

(** ** Data model *)

Module ReservationStatus.
(** Modelled from the spec: the type declaration
    [entities/booking/model/types] is not among the sources; these are the
    statuses section 3 lists. *)
Inductive t : Type :=
  | PENDING_RESERVED
  | COMPLETED
  | CANCELLED
  | EXPIRED
  | RETURNED.

#[global] Instance eq_dec : EqDecision t.
Proof. solve_decision. Defined.
End ReservationStatus.

Module BookStatus.
(** Modelled from the spec: the type declaration
    [entities/book/model/types] is not among the sources; these are the
    statuses section 3 lists and the code switches on. *)
Inductive t : Type :=
  | AVAILABLE
  | RESERVED
  | TAKEN
  | IN_YOUR_HANDS
  | RETURNED.

#[global] Instance eq_dec : EqDecision t.
Proof. solve_decision. Defined.
End BookStatus.

Module MyBookStatus.
(** [MyBook["status"]]. *)
Inductive t : Type :=
  | TAKEN
  | RESERVED
  | RETURNED
  | CANCELLED.

#[global] Instance eq_dec : EqDecision t.
Proof. solve_decision. Defined.
End MyBookStatus.

Module Reservation.
(** Modelled from the spec: the type declaration is not among the sources;
    the fields are those of section 3 together with [bookTitle], which the
    page reads. *)
Record t : Type := mk {
  id : Z;
  bookId : Z;
  status : ReservationStatus.t;
  reservedAt : option DateString;
  takenAt : option DateString;
  returnedAt : option DateString;
  bookTitle : option string;
}.
End Reservation.

Module Book.
(** Modelled from the spec: the type declaration is not among the sources;
    [status] is optional, as [book.status ?? "AVAILABLE"] shows. *)
Record t : Type := mk {
  id : Z;
  status : option BookStatus.t;
}.
End Book.

(** ** MyBooksPage.tsx: resolver, comparator, picker *)

Definition getReservationTimestamp (reservation : Reservation.t) : number :=
  Date_getTime
    (nullish (OfString <$> Reservation.returnedAt reservation)
      (nullish (OfString <$> Reservation.takenAt reservation)
        (nullish (OfString <$> Reservation.reservedAt reservation)
          (OfNumber 0)))).

Definition getMyBookStatus
    (reservation : Reservation.t) (bookStatus : option BookStatus.t)
  : MyBookStatus.t :=
  let isInHandsByBookStatus :=
    bool_decide (bookStatus = Some BookStatus.IN_YOUR_HANDS)
    || bool_decide (bookStatus = Some BookStatus.TAKEN) in
  if truthy (Reservation.returnedAt reservation)
     || bool_decide (Reservation.status reservation = ReservationStatus.RETURNED)
  then MyBookStatus.RETURNED
  else if bool_decide (Reservation.status reservation = ReservationStatus.COMPLETED)
          && negb isInHandsByBookStatus
  then MyBookStatus.RETURNED
  else if truthy (Reservation.takenAt reservation)
          || bool_decide (Reservation.status reservation = ReservationStatus.COMPLETED)
  then MyBookStatus.TAKEN
  else if bool_decide (Reservation.status reservation = ReservationStatus.CANCELLED)
          || bool_decide (Reservation.status reservation = ReservationStatus.EXPIRED)
  then MyBookStatus.CANCELLED
  else MyBookStatus.RESERVED.

Definition myBookStatusPriority (s : MyBookStatus.t) : Z :=
  match s with
  | MyBookStatus.RETURNED => 4
  | MyBookStatus.TAKEN => 3
  | MyBookStatus.RESERVED => 2
  | MyBookStatus.CANCELLED => 1
  end.

(** The comparator calls [getMyBookStatus] with one argument: the book status
    is [undefined] there. *)
Definition pickMoreRelevantReservation (current next : Reservation.t)
  : Reservation.t :=
  let currentTimestamp := getReservationTimestamp current in
  let nextTimestamp := getReservationTimestamp next in
  if js_gt nextTimestamp currentTimestamp then next
  else if js_lt nextTimestamp currentTimestamp then current
  else
    let currentPriority := myBookStatusPriority (getMyBookStatus current None) in
    let nextPriority := myBookStatusPriority (getMyBookStatus next None) in
    if bool_decide (nextPriority > currentPriority) then next
    else if bool_decide (nextPriority < currentPriority) then current
    else if bool_decide (Reservation.id next >= Reservation.id current)
         then next else current.

(** One turn of the loop of [ownedBooks] over [latestReservationByBook]. *)
Definition recordReservation
    (latest : gmap Z Reservation.t) (reservation : Reservation.t)
  : gmap Z Reservation.t :=
  match latest !! Reservation.bookId reservation with
  | None => <[Reservation.bookId reservation := reservation]> latest
  | Some previous =>
      <[Reservation.bookId reservation :=
          pickMoreRelevantReservation previous reservation]> latest
  end.

(** The map the loop leaves: the spec's [pick]. *)
Definition latestReservationByBook (reservations : list Reservation.t)
  : gmap Z Reservation.t :=
  foldl recordReservation ∅ reservations.

(** The precedence of section 4.1, in the spec's words.  A date field is set
    when it holds a non-empty string: the test the code makes. *)
Definition is_set (field : option DateString) : Prop := truthy field = true.

Definition in_hand (bookStatus : option BookStatus.t) : Prop :=
  bookStatus = Some BookStatus.IN_YOUR_HANDS ∨ bookStatus = Some BookStatus.TAKEN.

Definition returned_rule (r : Reservation.t) : Prop :=
  is_set (Reservation.returnedAt r)
  ∨ Reservation.status r = ReservationStatus.RETURNED.

Definition lagging_rule (r : Reservation.t) (b : option BookStatus.t) : Prop :=
  Reservation.status r = ReservationStatus.COMPLETED ∧ ¬ in_hand b.

Definition taken_rule (r : Reservation.t) : Prop :=
  is_set (Reservation.takenAt r)
  ∨ Reservation.status r = ReservationStatus.COMPLETED.

Definition cancelled_rule (r : Reservation.t) : Prop :=
  Reservation.status r = ReservationStatus.CANCELLED
  ∨ Reservation.status r = ReservationStatus.EXPIRED.

Inductive resolve (r : Reservation.t) (b : option BookStatus.t)
  : MyBookStatus.t → Prop :=
  | resolve_1 :
      returned_rule r → resolve r b MyBookStatus.RETURNED
  | resolve_2 :
      ¬ returned_rule r → lagging_rule r b → resolve r b MyBookStatus.RETURNED
  | resolve_3 :
      ¬ returned_rule r → ¬ lagging_rule r b → taken_rule r →
      resolve r b MyBookStatus.TAKEN
  | resolve_4 :
      ¬ returned_rule r → ¬ lagging_rule r b → ¬ taken_rule r →
      cancelled_rule r → resolve r b MyBookStatus.CANCELLED
  | resolve_5 :
      ¬ returned_rule r → ¬ lagging_rule r b → ¬ taken_rule r →
      ¬ cancelled_rule r → resolve r b MyBookStatus.RESERVED.

(** ** BookDetails.tsx: guards *)

(** [!value] for a value that is an object or [undefined]. *)
Definition absent {A : Type} (value : option A) : bool :=
  match value with
  | None => true
  | Some _ => false
  end.

(** [activeReservations.find((item) => item.bookId === book.id)], and
    [undefined] without a book. *)
Definition findReservation
    (activeReservations : list Reservation.t) (book : option Book.t)
  : option Reservation.t :=
  match book with
  | None => None
  | Some b =>
      List.find
        (λ item, bool_decide (Reservation.bookId item = Book.id b))
        activeReservations
  end.

(** [const status = book.status ?? "AVAILABLE"]. *)
Definition displayedStatus (book : Book.t) : BookStatus.t :=
  nullish (Book.status book) BookStatus.AVAILABLE.

Definition canReserve (book : Book.t) (reservation : option Reservation.t)
  : bool :=
  bool_decide (displayedStatus book = BookStatus.AVAILABLE)
  && absent reservation.

Definition canTake (reservation : option Reservation.t) : bool :=
  match reservation with
  | Some r => negb (truthy (Reservation.takenAt r))
  | None => false
  end.

Definition canReturn (reservation : option Reservation.t) : bool :=
  match reservation with
  | Some r =>
      truthy (Reservation.takenAt r) && negb (truthy (Reservation.returnedAt r))
  | None => false
  end.

Definition canCancel (reservation : option Reservation.t) : bool :=
  match reservation with
  | Some r => negb (truthy (Reservation.takenAt r))
  | None => false
  end.

(** ** BookDetails.tsx: error classification *)

(** ASCII lower-casing.  [toLocaleLowerCase("en-US")] also maps letters
    outside ASCII, none of them to a letter of the markers searched for, so
    on UTF-8 text the two agree on what [includes] answers below. *)
Definition toLowerAscii (c : ascii) : ascii :=
  let n := N_of_ascii c in
  if ((65 <=? n) && (n <=? 90))%N then ascii_of_N (n + 32) else c.

Fixpoint toLocaleLowerCase (s : string) : string :=
  match s with
  | EmptyString => EmptyString
  | String c rest => String (toLowerAscii c) (toLocaleLowerCase rest)
  end.

(** [haystack.includes(needle)]. *)
Fixpoint includes (haystack needle : string) : bool :=
  String.prefix needle haystack
  || match haystack with
     | EmptyString => false
     | String _ rest => includes rest needle
     end.

(** [response.data] as the classifier looks at it: a string, an object with
    optional [message] and [error], or anything else. *)
Inductive ResponseData : Type :=
  | DataString (s : string)
  | DataObject (message error : option string)
  | DataOther.

Module Response.
Record t : Type := mk {
  data : ResponseData;
  status : option Z;
}.
End Response.

Module AxiosError.
(** The rejection of a mutation: [response] is missing when the request
    never got an answer. *)
Record t : Type := mk {
  response : option Response.t;
}.
End AxiosError.

(** What the user is shown: a translation looked up by key with [t], or the
    server's text as it came. *)
Inductive Message : Type :=
  | Translated (key : string)
  | Verbatim (text : string).

Definition resolveReservationErrorMessage (error : AxiosError.t) : Message :=
  let response := AxiosError.response error in
  let status := response ≫= Response.status in
  let data := Response.data <$> response in
  let rawMessage :=
    match data with
    | Some (DataString s) => s
    | Some (DataObject message error) => nullish message (nullish error "")
    | Some DataOther | None => ""
    end%string in
  let normalized := toLocaleLowerCase rawMessage in
  if includes normalized "maximum number of reserved books"
     || includes normalized "maximum number"
  then Translated "reservation.errors.limitReached"
  else if bool_decide (status = Some 409)
  then Translated "reservation.errors.notAvailable"
  else if bool_decide (status = Some 400) && negb (String.eqb rawMessage "")
  then Verbatim rawMessage
  else Translated "reservation.errors.generic".

(** What the classifier calls [rawMessage] and [status]: the server's message
    and the HTTP status it reports. *)
Definition serverMessage (error : AxiosError.t) : string :=
  match Response.data <$> AxiosError.response error with
  | Some (DataString s) => s
  | Some (DataObject message error) => nullish message (nullish error "")
  | Some DataOther | None => ""
  end%string.

Definition serverStatus (error : AxiosError.t) : option Z :=
  AxiosError.response error ≫= Response.status.

(** The classification of section 7, in the spec's words, for a given marker
    of the first rule; the marker is looked for without regard to case. *)
Definition classify (marker : string) (error : AxiosError.t) : Message :=
  if includes (toLocaleLowerCase (serverMessage error)) marker
  then Translated "reservation.errors.limitReached"
  else if bool_decide (serverStatus error = Some 409)
  then Translated "reservation.errors.notAvailable"
  else if bool_decide (serverStatus error = Some 400)
          && negb (String.eqb (serverMessage error) "")
  then Verbatim (serverMessage error)
  else Translated "reservation.errors.generic".

(** ** BookDetails.tsx: the reservation mutations *)

(** The query keys [invalidateReservations] marks stale. *)
Inductive QueryKey : Type :=
  | ReservationsKey              (* ["reservations"] *)
  | BooksKey                     (* ["books"] *)
  | BookKey (id : Z).            (* ["book", id] *)

(** The part of the query client the component reads and writes. *)
Record QueryClient : Type := mkQueryClient {
  unreadCount : Z;                           (* ["notifications", "unread-count"] *)
  activeReservations : list Reservation.t;   (* ["reservations", "active"] *)
  bookData : option Book.t;                  (* ["book", bookId] *)
  invalidated : list QueryKey;
}.

(** The steps of the unread counter, in the order they ran. *)
Inductive CounterStep : Type :=
  | Incremented
  | RolledBack
  | Resynced.

Record World : Type := mkWorld {
  queryClient : QueryClient;
  reservationError : option Message;
  counterLog : list CounterStep;
}.

(** Callbacks run in sequence on the world. *)
Definition Effect (A : Type) : Type := World → A * World.

Definition pure {A : Type} (a : A) : Effect A := λ w, (a, w).

Definition andThen {A B : Type} (c : Effect A) (k : A → Effect B) : Effect B :=
  λ w, let (a, w') := c w in k a w'.

Declare Scope effect_scope.
Delimit Scope effect_scope with effect.
Notation "x <- c ;; k" := (andThen c (λ x, k))
  (at level 100, c at next level, k at level 200, right associativity)
  : effect_scope.
Notation "c ;; k" := (andThen c (λ _, k))
  (at level 100, k at level 200, right associativity) : effect_scope.

Definition exec {A : Type} (c : Effect A) (w : World) : World := snd (c w).

Definition setUnread (n : Z) (step : CounterStep) : Effect unit :=
  λ w,
    let q := queryClient w in
    (tt,
     {| queryClient :=
          {| unreadCount := n;
             activeReservations := activeReservations q;
             bookData := bookData q;
             invalidated := invalidated q |};
        reservationError := reservationError w;
        counterLog := counterLog w ++ [step] |}).

(** The rollback context of the counter. *)
Record UnreadContext : Type := mkContext { previous : Z }.

(** Modelled from the spec: [entities/notification/model/optimisticUnread]
    is not among the sources.  Section 4.4: read the cached count [n], set
    the cache to [n+1], return [{previous: n}]. *)
Definition optimisticIncrementUnread : Effect UnreadContext :=
  λ w,
    let n := unreadCount (queryClient w) in
    (mkContext n, snd (setUnread (n + 1) Incremented w)).

(** Modelled from the spec: [entities/notification/model/optimisticUnread]
    is not among the sources.  Section 4.4: set the cache back to
    [context.previous]. *)
Definition rollbackOptimisticUnread (context : UnreadContext) : Effect unit :=
  setUnread (previous context) RolledBack.

(** Modelled from the spec: [entities/notification/model/optimisticUnread]
    is not among the sources.  Section 4.4: read the authoritative count
    afresh and overwrite the cache unconditionally; [answer] is what the
    backend replies to that read. *)
Definition syncUnreadNotifications (answer : Z) : Effect unit :=
  setUnread answer Resynced.

Definition setReservationError (value : option Message) : Effect unit :=
  λ w,
    (tt,
     {| queryClient := queryClient w;
        reservationError := value;
        counterLog := counterLog w |}).

Definition invalidateQueries (key : QueryKey) : Effect unit :=
  λ w,
    let q := queryClient w in
    (tt,
     {| queryClient :=
          {| unreadCount := unreadCount q;
             activeReservations := activeReservations q;
             bookData := bookData q;
             invalidated := invalidated q ++ [key] |};
        reservationError := reservationError w;
        counterLog := counterLog w |}).

Definition invalidateReservations : Effect unit :=
  (invalidateQueries ReservationsKey ;;
   invalidateQueries BooksKey ;;
   λ w,
     match bookData (queryClient w) with
     | Some book =>
         if bool_decide (Book.id book = 0) then pure tt w
         else invalidateQueries (BookKey (Book.id book)) w
     | None => pure tt w
     end)%effect.

(** The callbacks handed to [useMutation]; [onSettled] is given the backend's
    reply to the read it issues. *)
Record MutationOptions : Type := mkMutation {
  onMutate : Effect UnreadContext;
  onSuccess : Effect unit;
  onError : AxiosError.t → UnreadContext → Effect unit;
  onSettled : Z → Effect unit;
}.

Definition reserveMutation : MutationOptions :=
  {| onMutate := optimisticIncrementUnread;
     onSuccess := (setReservationError None ;; invalidateReservations)%effect;
     onError := λ error context,
       (rollbackOptimisticUnread context ;;
        setReservationError (Some (resolveReservationErrorMessage error)))%effect;
     onSettled := λ answer, syncUnreadNotifications answer |}.

Definition takeMutation : MutationOptions :=
  {| onMutate := optimisticIncrementUnread;
     onSuccess := (setReservationError None ;; invalidateReservations)%effect;
     onError := λ error context,
       (rollbackOptimisticUnread context ;;
        setReservationError (Some (resolveReservationErrorMessage error)))%effect;
     onSettled := λ answer, syncUnreadNotifications answer |}.

Definition returnMutation : MutationOptions :=
  {| onMutate := optimisticIncrementUnread;
     onSuccess := (setReservationError None ;; invalidateReservations)%effect;
     onError := λ error context,
       (rollbackOptimisticUnread context ;;
        setReservationError (Some (resolveReservationErrorMessage error)))%effect;
     onSettled := λ answer, syncUnreadNotifications answer |}.

Definition cancelMutation : MutationOptions :=
  {| onMutate := optimisticIncrementUnread;
     onSuccess := (setReservationError None ;; invalidateReservations)%effect;
     onError := λ error context,
       (rollbackOptimisticUnread context ;;
        setReservationError (Some (resolveReservationErrorMessage error)))%effect;
     onSettled := λ answer, syncUnreadNotifications answer |}.

Inductive Action : Type :=
  | reserve (bookId : Z)
  | take (reservationId : Z)
  | returnBook (reservationId : Z)
  | cancel (reservationId : Z).

Definition mutationOf (action : Action) : MutationOptions :=
  match action with
  | reserve _ => reserveMutation
  | take _ => takeMutation
  | returnBook _ => returnMutation
  | cancel _ => cancelMutation
  end.

(** How the request of a mutation ends. *)
Inductive Outcome : Type :=
  | Fulfilled
  | Rejected (error : AxiosError.t).

(** The order in which a mutation runs its callbacks: [onMutate], the request,
    [onSuccess] or [onError] with the context [onMutate] returned, then
    [onSettled]. *)
Definition runMutation
    (options : MutationOptions) (outcome : Outcome) (answer : Z)
  : Effect unit :=
  (context <- onMutate options ;;
   match outcome with
   | Fulfilled => onSuccess options
   | Rejected error => onError options error context
   end ;;
   onSettled options answer)%effect.

(** The failure path up to the end of [onError], before the resync. *)
Definition runUntilRollback
    (options : MutationOptions) (error : AxiosError.t) : Effect unit :=
  (context <- onMutate options ;; onError options error context)%effect.

(** What the component derives from the world on a render. *)
Definition currentReservation (w : World) : option Reservation.t :=
  findReservation
    (activeReservations (queryClient w)) (bookData (queryClient w)).

Record Guards : Type := mkGuards {
  reserveAllowed : bool;
  takeAllowed : bool;
  returnAllowed : bool;
  cancelAllowed : bool;
}.

Definition guards (w : World) : option Guards :=
  match bookData (queryClient w) with
  | None => None
  | Some book =>
      let reservation := currentReservation w in
      Some {| reserveAllowed := canReserve book reservation;
              takeAllowed := canTake reservation;
              returnAllowed := canReturn reservation;
              cancelAllowed := canCancel reservation |}
  end.

(** ** Vocabulary of the statements about the picker *)

(** A reservation is dated when its relevance timestamp is a number. *)
Definition dated (r : Reservation.t) : Prop :=
  ∃ ms : Z, getReservationTimestamp r = Num ms.

Definition timeOf (r : Reservation.t) : Z :=
  match getReservationTimestamp r with
  | Num ms => ms
  | NaN => 0
  end.

(** The priority the comparator gives a reservation. *)
Definition priorityOf (r : Reservation.t) : Z :=
  myBookStatusPriority (getMyBookStatus r None).

(** The lexicographic order on timestamp, priority, id. *)
Definition no_more_relevant (a b : Reservation.t) : Prop :=
  timeOf a < timeOf b
  ∨ (timeOf a = timeOf b
     ∧ (priorityOf a < priorityOf b
        ∨ (priorityOf a = priorityOf b
           ∧ Reservation.id a ≤ Reservation.id b))).

(** Within a book, an id names one reservation. *)
Definition ids_identify (reservations : list Reservation.t) : Prop :=
  ∀ a b : Reservation.t,
    a ∈ reservations → b ∈ reservations →
    Reservation.bookId a = Reservation.bookId b →
    Reservation.id a = Reservation.id b →
    a = b.

(** What the map holds at a book after the loop has seen [seen]: nothing when
    no reservation of the book was seen, else a seen reservation of the book
    that no other one outranks. *)
Definition holds_most_relevant
    (seen : list Reservation.t) (latest : gmap Z Reservation.t) : Prop :=
  ∀ book : Z,
    match latest !! book with
    | None => ∀ r, r ∈ seen → Reservation.bookId r ≠ book
    | Some chosen =>
        chosen ∈ seen
        ∧ Reservation.bookId chosen = book
        ∧ ∀ r, r ∈ seen → Reservation.bookId r = book →
               no_more_relevant r chosen
    end.

(** ** Arrays *)

(** The index [slice] starts or stops at: a negative argument counts from the
    end, and both are clamped to the array. *)
Definition relativeIndex (len index : Z) : Z :=
  if bool_decide (index < 0) then Z.max (len + index) 0 else Z.min index len.

(** [array.slice(start, finish)] for integer arguments. *)
Definition slice {A : Type} (array : list A) (start finish : Z) : list A :=
  let len := Z.of_nat (length array) in
  let k := relativeIndex len start in
  let final := relativeIndex len finish in
  firstn (Z.to_nat (final - k)) (skipn (Z.to_nat k) array).

(** ** MyBooksPage.tsx: pagination *)

Definition PAGE_SIZE : Z := 8.

(** [Math.max(1, Math.ceil(list.length / PAGE_SIZE))]: the quotient of the
    length by the page size, rounded up. *)
Definition totalPages {A : Type} (items : list A) : Z :=
  Z.max 1 ((Z.of_nat (length items) + PAGE_SIZE - 1) / PAGE_SIZE).

(** [Math.min(page, totalPages)]. *)
Definition currentPage {A : Type} (page : Z) (items : list A) : Z :=
  Z.min page (totalPages items).

Definition pagedList {A : Type} (page : Z) (items : list A) : list A :=
  slice items
    ((currentPage page items - 1) * PAGE_SIZE)
    (currentPage page items * PAGE_SIZE).

(** ** BookDetails.tsx: how many reviews are shown *)

Definition REVIEWS_PAGE_SIZE : Z := 5.

(** [visibleReviewsCountByBook] is an object keyed by book id. *)
Definition visibleReviewsCount
    (hasBookId : bool) (bookId : Z) (visibleReviewsCountByBook : gmap Z Z) : Z :=
  if hasBookId
  then nullish (visibleReviewsCountByBook !! bookId) REVIEWS_PAGE_SIZE
  else REVIEWS_PAGE_SIZE.

Definition visibleReviews {A : Type} (reviews : list A) (count : Z) : list A :=
  slice reviews 0 count.

Definition hasMoreReviews {A : Type} (reviews : list A) (count : Z) : bool :=
  bool_decide (Z.of_nat (length reviews) > count).

(** The updater the "show more" button hands to
    [setVisibleReviewsCountByBook]; [key] is [book.id]. *)
Definition showMoreReviews (key : Z) (prev : gmap Z Z) : gmap Z Z :=
  let current := nullish (prev !! key) REVIEWS_PAGE_SIZE in
  <[key := current + REVIEWS_PAGE_SIZE]> prev.

(** ** BookDetails.tsx: similar books *)

Module ApiBook.
(** The fields of a catalogue book that [mapBookToCard] and [similarBooks]
    read.  A rating is a decimal number; it is only copied. *)
Record t : Type := mk {
  id : Z;
  title : string;
  author : string;
  coverUrl : option string;
  averageRating : option QArith_base.Q;
  reviewCount : option Z;
  category : option string;
  status : option BookStatus.t;
}.
End ApiBook.

Module CardBook.
Record t : Type := mk {
  id : Z;
  title : string;
  author : string;
  coverUrl : option string;
  averageRating : option QArith_base.Q;
  reviewCount : option Z;
  category : option string;
  status : option BookStatus.t;
}.
End CardBook.

Definition mapBookToCard (book : ApiBook.t) : CardBook.t :=
  {| CardBook.id := ApiBook.id book;
     CardBook.title := ApiBook.title book;
     CardBook.author := ApiBook.author book;
     CardBook.coverUrl := ApiBook.coverUrl book;
     CardBook.averageRating := ApiBook.averageRating book;
     CardBook.reviewCount := ApiBook.reviewCount book;
     CardBook.category := ApiBook.category book;
     CardBook.status := ApiBook.status book |}.

(** Truthiness of an optional string: present and not empty. *)
Definition truthyString (value : option string) : bool :=
  match value with
  | Some text => negb (String.eqb text "")
  | None => false
  end.

(** [array.length] used as a condition. *)
Definition nonEmpty {A : Type} (array : list A) : bool :=
  match array with
  | [] => false
  | _ :: _ => true
  end.

Definition similarBooks (book : option ApiBook.t) (booksData : list ApiBook.t)
  : list CardBook.t :=
  match book with
  | None => []
  | Some book =>
      let sameCategory :=
        if truthyString (ApiBook.category book)
        then filter
               (λ item, ApiBook.id item ≠ ApiBook.id book
                        ∧ ApiBook.category item = ApiBook.category book)
               booksData
        else [] in
      let source :=
        if nonEmpty sameCategory
        then sameCategory
        else filter (λ item, ApiBook.id item ≠ ApiBook.id book) booksData in
      mapBookToCard <$> slice source 0 8
  end.

(** ** Sorting *)

(** [a - b] on numbers. *)
Definition js_sub (a b : number) : number :=
  match a, b with
  | Num x, Num y => Num (x - y)
  | _, _ => NaN
  end.

(** Whether a comparator result puts its first argument after its second:
    a positive number does; [NaN] counts as 0. *)
Definition sortsAfter (result : number) : bool :=
  match result with
  | Num v => bool_decide (0 < v)
  | NaN => false
  end.

Fixpoint insertSorted {A : Type}
    (compare : A → A → number) (x : A) (sorted : list A) : list A :=
  match sorted with
  | [] => [x]
  | y :: rest =>
      if sortsAfter (compare y x) then x :: y :: rest
      else y :: insertSorted compare x rest
  end.

(** [array.sort(compare)].  The sort is stable, so with a comparator that
    orders the elements consistently its result is the one stable ordering,
    which insertion from the left computes.  When some results are [NaN] the
    language leaves the order to the engine; the statements about order below
    are for numeric timestamps. *)
Definition sort {A : Type} (compare : A → A → number) (array : list A)
  : list A :=
  foldl (λ sorted x, insertSorted compare x sorted) [] array.

(** ** MyBooksPage.tsx: the list of my books *)

(** A [Map] with number keys, as the list of its entries in insertion order:
    [set] on a key already there replaces the value in place. *)
Fixpoint Map_get {V : Type} (entries : list (Z * V)) (key : Z) : option V :=
  match entries with
  | [] => None
  | (k, v) :: rest => if decide (k = key) then Some v else Map_get rest key
  end.

Fixpoint Map_set {V : Type} (entries : list (Z * V)) (key : Z) (value : V)
  : list (Z * V) :=
  match entries with
  | [] => [(key, value)]
  | (k, v) :: rest =>
      if decide (k = key) then (key, value) :: rest
      else (k, v) :: Map_set rest key value
  end.

(** [[...map.values()]]. *)
Definition Map_values {V : Type} (entries : list (Z * V)) : list V :=
  snd <$> entries.

(** The loop of [ownedBooks] again, on the map with its insertion order. *)
Definition recordEntry
    (latest : list (Z * Reservation.t)) (reservation : Reservation.t)
  : list (Z * Reservation.t) :=
  match Map_get latest (Reservation.bookId reservation) with
  | None => Map_set latest (Reservation.bookId reservation) reservation
  | Some previous =>
      Map_set latest (Reservation.bookId reservation)
        (pickMoreRelevantReservation previous reservation)
  end.

Definition latestEntries (reservations : list Reservation.t)
  : list (Z * Reservation.t) :=
  foldl recordEntry [] reservations.

Module MyBook.
(** [MyBook], with the fields [ownedBooks] fills in.  The title is the text of
    the reservation or of the book, or the translation of "book.untitled". *)
Record t : Type := mk {
  id : Z;
  title : Message;
  author : string;
  coverUrl : option string;
  status : MyBookStatus.t;
  reservation : Reservation.t;
}.
End MyBook.

(** [new Map(books.map((item) => [item.id, item]))]: of two books with one id
    the later one stays. *)
Definition bookMapOf (books : list ApiBook.t) : gmap Z ApiBook.t :=
  foldl (λ bookMap item, <[ApiBook.id item := item]> bookMap) ∅ books.

Definition toMyBook (bookMap : gmap Z ApiBook.t) (reservation : Reservation.t)
  : MyBook.t :=
  let book := bookMap !! Reservation.bookId reservation in
  {| MyBook.id := Reservation.bookId reservation;
     MyBook.title :=
       match Reservation.bookTitle reservation with
       | Some text => Verbatim text
       | None =>
           match book with
           | Some found => Verbatim (ApiBook.title found)
           | None => Translated "book.untitled"
           end
       end;
     MyBook.author := nullish (ApiBook.author <$> book) "—"%string;
     MyBook.coverUrl := book ≫= ApiBook.coverUrl;
     MyBook.status := getMyBookStatus reservation (book ≫= ApiBook.status);
     MyBook.reservation := reservation |}.

(** The comparator of the sort: later timestamps first. *)
Definition byTimestampDescending (left right : Reservation.t) : number :=
  js_sub (getReservationTimestamp right) (getReservationTimestamp left).

Definition ownedBooks
    (books : list ApiBook.t) (reservations : list Reservation.t)
  : list MyBook.t :=
  if nonEmpty reservations
  then
    let bookMap := bookMapOf books in
    toMyBook bookMap
      <$> sort byTimestampDescending (Map_values (latestEntries reservations))
  else [].

(** The books under a status tab, before the search box narrows them. *)
Inductive MyBookFilter : Type :=
  | all
  | only (status : MyBookStatus.t).

Definition byStatus (filter_ : MyBookFilter) (owned : list MyBook.t)
  : list MyBook.t :=
  match filter_ with
  | all => owned
  | only status => filter (λ book, MyBook.status book = status) owned
  end.

(** ** BookDetails.tsx: the reviews shown *)

Module Review.
(** The fields of a review the component reads. *)
Record t : Type := mk {
  id : Z;
  userEmail : option string;
  createdAt : DateString;
  rating : Z;
  comment : option string;
}.
End Review.

Section Reviews.
(** [String.prototype.trim] and [String.prototype.toLocaleLowerCase], on
    arbitrary text. *)
Context (String_trim String_toLocaleLowerCase : string → string).

(** [email?.trim().toLocaleLowerCase() ?? ""]. *)
Definition normalizeEmail (email : option string) : string :=
  nullish ((λ text, String_toLocaleLowerCase (String_trim text)) <$> email)
    ""%string.

(** The comparator of the sort: later reviews first. *)
Definition byCreatedAtDescending (left right : Review.t) : number :=
  js_sub (Date_getTime (OfString (Review.createdAt right)))
         (Date_getTime (OfString (Review.createdAt left))).

(** The filter over the sorted reviews, with its set of emails met so far. *)
Fixpoint filterUniqueEmails
    (uniqueEmails : gset string) (sorted : list Review.t) : list Review.t :=
  match sorted with
  | [] => []
  | review :: rest =>
      let email := normalizeEmail (Review.userEmail review) in
      if String.eqb email "" then
        review :: filterUniqueEmails uniqueEmails rest
      else if decide (email ∈ uniqueEmails) then
        filterUniqueEmails uniqueEmails rest
      else
        review :: filterUniqueEmails ({[email]} ∪ uniqueEmails) rest
  end.

Definition reviews (reviewsData : list Review.t) : list Review.t :=
  filterUniqueEmails ∅ (sort byCreatedAtDescending reviewsData).

(** [reviews.find(...)] for the e-mail of the signed-in user. *)
Definition ownReview (userEmail : option string) (shown : list Review.t)
  : option Review.t :=
  let currentUserEmail := normalizeEmail userEmail in
  List.find
    (λ review,
       String.eqb (normalizeEmail (Review.userEmail review)) currentUserEmail)
    shown.

End Reviews.

(** The time a review was written, 0 when its date is not one. *)
Definition createdTime (review : Review.t) : Z :=
  match Date_getTime (OfString (Review.createdAt review)) with
  | Num ms => ms
  | NaN => 0
  end.

(** * Properties *)

(** ** The status resolver *)

Section Resolver.
Context (r : Reservation.t) (b : option BookStatus.t).

Lemma returned_rule_test :
  returned_rule r ↔
  truthy (Reservation.returnedAt r)
  || bool_decide (Reservation.status r = ReservationStatus.RETURNED) = true.
Proof.
  unfold returned_rule, is_set.
  rewrite orb_true_iff, bool_decide_eq_true. reflexivity.
Qed.

Lemma in_hand_test :
  in_hand b ↔
  bool_decide (b = Some BookStatus.IN_YOUR_HANDS)
  || bool_decide (b = Some BookStatus.TAKEN) = true.
Proof.
  unfold in_hand. rewrite orb_true_iff, !bool_decide_eq_true. reflexivity.
Qed.

Lemma lagging_rule_test :
  lagging_rule r b ↔
  bool_decide (Reservation.status r = ReservationStatus.COMPLETED)
  && negb (bool_decide (b = Some BookStatus.IN_YOUR_HANDS)
           || bool_decide (b = Some BookStatus.TAKEN)) = true.
Proof.
  unfold lagging_rule.
  rewrite andb_true_iff, negb_true_iff, bool_decide_eq_true, in_hand_test.
  rewrite not_true_iff_false. reflexivity.
Qed.

Lemma taken_rule_test :
  taken_rule r ↔
  truthy (Reservation.takenAt r)
  || bool_decide (Reservation.status r = ReservationStatus.COMPLETED) = true.
Proof.
  unfold taken_rule, is_set.
  rewrite orb_true_iff, bool_decide_eq_true. reflexivity.
Qed.

Lemma cancelled_rule_test :
  cancelled_rule r ↔
  bool_decide (Reservation.status r = ReservationStatus.CANCELLED)
  || bool_decide (Reservation.status r = ReservationStatus.EXPIRED) = true.
Proof.
  unfold cancelled_rule.
  rewrite orb_true_iff, !bool_decide_eq_true. reflexivity.
Qed.
End Resolver.

(** C1. For every reservation and optional book status the resolver returns a
    status, and that status is the one, and the only one, the fixed precedence
    of the five rules gives: returned (returnedAt set or status RETURNED);
    else returned again (status COMPLETED while the book is neither
    IN_YOUR_HANDS nor TAKEN); else taken (takenAt set or status COMPLETED);
    else cancelled (status CANCELLED or EXPIRED); else reserved.  A date field
    counts as set when it holds a non-empty string. *)
Theorem getMyBookStatus_precedence
    (r : Reservation.t) (b : option BookStatus.t) (s : MyBookStatus.t) :
  resolve r b s ↔ getMyBookStatus r b = s.
Proof.
  split.
  - intros H. unfold getMyBookStatus.
    destruct H as [H1 | H1 H2 | H1 H2 H3 | H1 H2 H3 H4 | H1 H2 H3 H4];
      repeat match goal with
      | H : ¬ _ |- _ =>
          first [ rewrite returned_rule_test in H
                | rewrite lagging_rule_test in H
                | rewrite taken_rule_test in H
                | rewrite cancelled_rule_test in H ];
          apply not_true_is_false in H; rewrite H; clear H
      | H : _ |- _ =>
          first [ rewrite returned_rule_test in H
                | rewrite lagging_rule_test in H
                | rewrite taken_rule_test in H
                | rewrite cancelled_rule_test in H ];
          rewrite H; clear H
      end; reflexivity.
  - intros <-. unfold getMyBookStatus.
    destruct (truthy (Reservation.returnedAt r) || _) eqn:E1.
    { apply resolve_1. by apply returned_rule_test. }
    assert (¬ returned_rule r) as N1
      by (rewrite returned_rule_test, E1; discriminate).
    destruct (bool_decide (_ = ReservationStatus.COMPLETED) && _) eqn:E2.
    { apply resolve_2; [done | by apply lagging_rule_test]. }
    assert (¬ lagging_rule r b) as N2
      by (rewrite lagging_rule_test, E2; discriminate).
    destruct (truthy (Reservation.takenAt r) || _) eqn:E3.
    { apply resolve_3; [done | done | by apply taken_rule_test]. }
    assert (¬ taken_rule r) as N3
      by (rewrite taken_rule_test, E3; discriminate).
    destruct (bool_decide (_ = ReservationStatus.CANCELLED) || _) eqn:E4.
    { apply resolve_4; [done | done | done | by apply cancelled_rule_test]. }
    apply resolve_5; [done | done | done |].
    rewrite cancelled_rule_test, E4. discriminate.
Qed.

(** Scenarios A and B of the spec. *)
Example resolve_scenario_A :
  getMyBookStatus
    (Reservation.mk 1 1 ReservationStatus.PENDING_RESERVED
       (Some (Instant 1704067200000)) None None None)
    (Some BookStatus.AVAILABLE) = MyBookStatus.RESERVED.
Proof. reflexivity. Qed.

Example resolve_scenario_B :
  getMyBookStatus
    (Reservation.mk 1 1 ReservationStatus.COMPLETED
       None (Some (Instant 1706781600000)) None None)
    (Some BookStatus.RETURNED) = MyBookStatus.RETURNED.
Proof. reflexivity. Qed.

(** ** The relevance comparator *)

Lemma js_gt_lt (a b : number) : js_gt a b = js_lt b a.
Proof. destruct a, b; reflexivity. Qed.

Lemma js_lt_irrefl (a : number) : js_lt a a = false.
Proof. destruct a; simpl; [done |]. apply bool_decide_eq_false. lia. Qed.

Lemma js_lt_asym (a b : number) : js_lt a b = true → js_lt b a = false.
Proof.
  destruct a, b; simpl; try done.
  rewrite bool_decide_eq_true, bool_decide_eq_false. lia.
Qed.

Lemma js_lt_Num (x y : Z) : js_lt (Num x) (Num y) = bool_decide (x < y).
Proof. reflexivity. Qed.

Lemma pick_later (current next : Reservation.t) :
  js_lt (getReservationTimestamp current) (getReservationTimestamp next) = true →
  pickMoreRelevantReservation current next = next.
Proof.
  intros H. unfold pickMoreRelevantReservation.
  by rewrite js_gt_lt, H.
Qed.

Lemma pick_earlier (current next : Reservation.t) :
  js_lt (getReservationTimestamp next) (getReservationTimestamp current) = true →
  pickMoreRelevantReservation current next = current.
Proof.
  intros H. unfold pickMoreRelevantReservation.
  by rewrite js_gt_lt, (js_lt_asym _ _ H), H.
Qed.

Lemma pick_same_time (current next : Reservation.t) :
  getReservationTimestamp current = getReservationTimestamp next →
  pickMoreRelevantReservation current next =
    let currentPriority := myBookStatusPriority (getMyBookStatus current None) in
    let nextPriority := myBookStatusPriority (getMyBookStatus next None) in
    if bool_decide (nextPriority > currentPriority) then next
    else if bool_decide (nextPriority < currentPriority) then current
    else if bool_decide (Reservation.id next >= Reservation.id current)
         then next else current.
Proof.
  intros H. unfold pickMoreRelevantReservation.
  by rewrite js_gt_lt, H, js_lt_irrefl.
Qed.

(** The comparator returns one of its two arguments. *)
Lemma pick_one_of (current next : Reservation.t) :
  pickMoreRelevantReservation current next = current
  ∨ pickMoreRelevantReservation current next = next.
Proof.
  unfold pickMoreRelevantReservation.
  repeat case_match; auto.
Qed.

(** C7. The relevance timestamp of a reservation is that of returnedAt when
    the field is present, else of takenAt when present, else of reservedAt
    when present, else 0; and of two reservations with different timestamps
    the comparator selects the one with the larger timestamp, whichever of
    its two arguments that is. *)
Theorem timestamp_chain_and_order (current next : Reservation.t) :
  getReservationTimestamp current =
    match Reservation.returnedAt current with
    | Some returned => Date_getTime (OfString returned)
    | None =>
        match Reservation.takenAt current with
        | Some taken => Date_getTime (OfString taken)
        | None =>
            match Reservation.reservedAt current with
            | Some reserved => Date_getTime (OfString reserved)
            | None => Num 0
            end
        end
    end
  ∧ (js_gt (getReservationTimestamp next) (getReservationTimestamp current) = true →
     pickMoreRelevantReservation current next = next)
  ∧ (js_lt (getReservationTimestamp next) (getReservationTimestamp current) = true →
     pickMoreRelevantReservation current next = current)
  ∧ (∀ x y : Z,
       getReservationTimestamp current = Num x →
       getReservationTimestamp next = Num y →
       x ≠ y →
       pickMoreRelevantReservation current next =
         (if bool_decide (x < y) then next else current)
       ∧ getReservationTimestamp (pickMoreRelevantReservation current next) =
           Num (x `max` y)).
Proof.
  split; [| split; [| split]].
  - unfold getReservationTimestamp.
    destruct (Reservation.returnedAt current),
      (Reservation.takenAt current), (Reservation.reservedAt current);
      reflexivity.
  - rewrite js_gt_lt. apply pick_later.
  - apply pick_earlier.
  - intros x y Hx Hy Hne. case_bool_decide as Hlt.
    + rewrite pick_later by (rewrite Hx, Hy; by apply bool_decide_eq_true).
      split; [done |]. rewrite Hy. f_equal. lia.
    + rewrite pick_earlier
        by (rewrite Hx, Hy; apply bool_decide_eq_true; lia).
      split; [done |]. rewrite Hx. f_equal. lia.
Qed.

(** Scenario C of the spec: ids 10 (taken on 2024-03-01) and 11 (returned on
    2024-03-02) of book 5. *)
Example pick_scenario_C :
  latestReservationByBook
    [ Reservation.mk 10 5 ReservationStatus.COMPLETED
        None (Some (Instant 1709251200000)) None None;
      Reservation.mk 11 5 ReservationStatus.RETURNED
        None None (Some (Instant 1709337600000)) None ] !! 5
  = Some (Reservation.mk 11 5 ReservationStatus.RETURNED
            None None (Some (Instant 1709337600000)) None).
Proof. vm_compute. reflexivity. Qed.

(** C6. Of two reservations of the same book whose timestamps are equal and
    whose derived statuses (as the comparator derives them, without a book
    status) are identical, the comparator and the picker select the one with
    the larger id. *)
Theorem tie_break_by_id (current next : Reservation.t) :
  Reservation.bookId current = Reservation.bookId next →
  getReservationTimestamp current = getReservationTimestamp next →
  getMyBookStatus current None = getMyBookStatus next None →
  pickMoreRelevantReservation current next =
    (if bool_decide (Reservation.id current ≤ Reservation.id next)
     then next else current)
  ∧ Reservation.id (pickMoreRelevantReservation current next) =
      Reservation.id current `max` Reservation.id next
  ∧ latestReservationByBook [current; next] !! Reservation.bookId current =
      Some (pickMoreRelevantReservation current next).
Proof.
  intros Hbook Htime Hstatus.
  rewrite (pick_same_time _ _ Htime). cbn zeta. rewrite Hstatus.
  rewrite !bool_decide_eq_false_2 by lia.
  split; [| split].
  - repeat case_bool_decide; (done || lia).
  - repeat case_bool_decide; lia.
  - unfold latestReservationByBook. simpl. unfold recordReservation at 2.
    rewrite lookup_empty. unfold recordReservation.
    rewrite <- Hbook, lookup_insert_eq, lookup_insert_eq.
    rewrite (pick_same_time _ _ Htime). cbn zeta. rewrite Hstatus.
    by rewrite !bool_decide_eq_false_2 by lia.
Qed.

(** Scenario D of the spec: ids 3 and 8 of book 7, both reserved on
    2024-01-01. *)
Lemma tie_break_scenario_D :
  let r3 := Reservation.mk 3 7 ReservationStatus.PENDING_RESERVED
              (Some (Instant 1704067200000)) None None None in
  let r8 := Reservation.mk 8 7 ReservationStatus.PENDING_RESERVED
              (Some (Instant 1704067200000)) None None None in
  pickMoreRelevantReservation r3 r8 = r8
  ∧ Reservation.id (pickMoreRelevantReservation r3 r8) = 8
  ∧ latestReservationByBook [r3; r8] !! 7 = Some r8.
Proof.
  intros r3 r8.
  exact (tie_break_by_id r3 r8 eq_refl eq_refl eq_refl).
Defined.

(** ** The picker *)

Lemma dated_time (r : Reservation.t) :
  dated r → getReservationTimestamp r = Num (timeOf r).
Proof. intros [ms H]. unfold timeOf. by rewrite H. Qed.

Lemma no_more_relevant_refl (a : Reservation.t) : no_more_relevant a a.
Proof. unfold no_more_relevant. lia. Qed.

Lemma no_more_relevant_trans (a b c : Reservation.t) :
  no_more_relevant a b → no_more_relevant b c → no_more_relevant a c.
Proof. unfold no_more_relevant. lia. Qed.

Lemma no_more_relevant_antisym (a b : Reservation.t) :
  no_more_relevant a b → no_more_relevant b a →
  Reservation.id a = Reservation.id b.
Proof. unfold no_more_relevant. lia. Qed.

(** On dated reservations the comparator is the maximum of that order, the
    second argument winning ties. *)
Lemma pick_upper_bound (current next : Reservation.t) :
  dated current → dated next →
  no_more_relevant current (pickMoreRelevantReservation current next)
  ∧ no_more_relevant next (pickMoreRelevantReservation current next).
Proof.
  intros Hc Hn.
  pose proof (dated_time _ Hc) as Ec. pose proof (dated_time _ Hn) as En.
  unfold pickMoreRelevantReservation.
  rewrite js_gt_lt, Ec, En, !js_lt_Num.
  unfold no_more_relevant, priorityOf.
  repeat case_bool_decide; lia.
Qed.

Lemma holds_most_relevant_nil : holds_most_relevant [] ∅.
Proof.
  intros book. rewrite lookup_empty. intros r Hr. by apply elem_of_nil in Hr.
Qed.

Lemma holds_most_relevant_snoc
    (seen : list Reservation.t) (latest : gmap Z Reservation.t)
    (x : Reservation.t) :
  Forall dated seen → dated x →
  holds_most_relevant seen latest →
  holds_most_relevant (seen ++ [x]) (recordReservation latest x).
Proof.
  intros Hseen Hx Hinv book. unfold recordReservation.
  pose proof (Hinv (Reservation.bookId x)) as Hown.
  pose proof (Hinv book) as Hbook.
  destruct (latest !! Reservation.bookId x) as [previous |] eqn:Eprev.
  - destruct Hown as (Hin & Hsame & Hmax).
    assert (dated previous) as Hp by (eapply Forall_forall; eauto).
    destruct (decide (Reservation.bookId x = book)) as [<- | Hne].
    + rewrite lookup_insert_eq.
      destruct (pick_upper_bound previous x Hp Hx) as [Hup1 Hup2].
      split; [| split].
      * destruct (pick_one_of previous x) as [-> | ->]; set_solver.
      * destruct (pick_one_of previous x) as [-> | ->]; done.
      * intros r Hr Hrb. apply elem_of_app in Hr as [Hr | Hr].
        -- eapply no_more_relevant_trans; [by apply Hmax | done].
        -- apply list_elem_of_singleton in Hr as ->. done.
    + rewrite lookup_insert_ne by done.
      destruct (latest !! book) as [chosen |].
      * destruct Hbook as (Hc1 & Hc2 & Hc3).
        split; [set_solver | split; [done |]].
        intros r Hr Hrb. apply elem_of_app in Hr as [Hr | Hr]; [by apply Hc3 |].
        apply list_elem_of_singleton in Hr as ->. done.
      * intros r Hr. apply elem_of_app in Hr as [Hr | Hr]; [by apply Hbook |].
        apply list_elem_of_singleton in Hr as ->. done.
  - destruct (decide (Reservation.bookId x = book)) as [<- | Hne].
    + rewrite lookup_insert_eq.
      split; [set_solver | split; [done |]].
      intros r Hr Hrb. apply elem_of_app in Hr as [Hr | Hr].
      * by apply Hown in Hr.
      * apply list_elem_of_singleton in Hr as ->. apply no_more_relevant_refl.
    + rewrite lookup_insert_ne by done.
      destruct (latest !! book) as [chosen |].
      * destruct Hbook as (Hc1 & Hc2 & Hc3).
        split; [set_solver | split; [done |]].
        intros r Hr Hrb. apply elem_of_app in Hr as [Hr | Hr]; [by apply Hc3 |].
        apply list_elem_of_singleton in Hr as ->. done.
      * intros r Hr. apply elem_of_app in Hr as [Hr | Hr]; [by apply Hbook |].
        apply list_elem_of_singleton in Hr as ->. done.
Qed.

Lemma latest_holds_most_relevant (reservations : list Reservation.t) :
  Forall dated reservations →
  holds_most_relevant reservations (latestReservationByBook reservations).
Proof.
  unfold latestReservationByBook.
  induction reservations as [| x seen IH] using rev_ind; intros Hall.
  - apply holds_most_relevant_nil.
  - apply Forall_app in Hall as [Hseen Hx].
    rewrite foldl_snoc. apply holds_most_relevant_snoc; [done | | by apply IH].
    by inversion Hx.
Qed.

(** C2 (amended). For every list of reservations whose relevance timestamps
    are all numbers and in which an id names one reservation per book, and
    for every permutation of that list, the picker yields the same map, hence
    the same selected reservation for each bookId. *)
Theorem pick_order_independent (reservations permuted : list Reservation.t) :
  reservations ≡ₚ permuted →
  Forall dated reservations →
  ids_identify reservations →
  latestReservationByBook reservations = latestReservationByBook permuted.
Proof.
  intros Hperm Hdated Hids.
  assert (Forall dated permuted) as Hdated' by (by rewrite <- Hperm).
  pose proof (latest_holds_most_relevant _ Hdated) as H1.
  pose proof (latest_holds_most_relevant _ Hdated') as H2.
  apply map_eq. intros book.
  specialize (H1 book). specialize (H2 book).
  destruct (latestReservationByBook reservations !! book) as [a |],
    (latestReservationByBook permuted !! book) as [b |]; [| | | done].
  - destruct H1 as (Ha & Hab & Hamax), H2 as (Hb & Hbb & Hbmax).
    rewrite <- Hperm in Hb. f_equal. apply Hids; [done | done | congruence |].
    apply no_more_relevant_antisym.
    + apply Hbmax; [by rewrite <- Hperm | done].
    + by apply Hamax.
  - destruct H1 as (Ha & Hab & _). rewrite Hperm in Ha.
    by destruct (H2 a Ha).
  - destruct H2 as (Hb & Hbb & _). rewrite <- Hperm in Hb.
    by destruct (H1 b Hb).
Qed.

Lemma pick_order_independent_scenario_D :
  let r3 := Reservation.mk 3 7 ReservationStatus.PENDING_RESERVED
              (Some (Instant 1704067200000)) None None None in
  let r8 := Reservation.mk 8 7 ReservationStatus.PENDING_RESERVED
              (Some (Instant 1704067200000)) None None None in
  latestReservationByBook [r3; r8] = latestReservationByBook [r8; r3].
Proof.
  intros r3 r8. apply pick_order_independent.
  - apply perm_swap.
  - repeat constructor; eexists; reflexivity.
  - intros a b Ha Hb _ Hid.
    apply elem_of_cons in Ha as [-> | Ha]; apply elem_of_cons in Hb as [-> | Hb];
      try apply list_elem_of_singleton in Ha as ->;
      try apply list_elem_of_singleton in Hb as ->;
      first [reflexivity | discriminate Hid].
Defined.

(** C2 as stated fails: two records of book 1 carrying the same id, one
    cancelled and one expired, tie on timestamp, priority and id, and the
    comparator then keeps whichever came last. *)
Lemma pick_depends_on_order :
  let cancelled := Reservation.mk 1 1 ReservationStatus.CANCELLED
                     None None None None in
  let expired := Reservation.mk 1 1 ReservationStatus.EXPIRED
                   None None None None in
  [cancelled; expired] ≡ₚ [expired; cancelled]
  ∧ latestReservationByBook [cancelled; expired] !! 1 = Some expired
  ∧ latestReservationByBook [expired; cancelled] !! 1 = Some cancelled
  ∧ expired ≠ cancelled.
Proof.
  intros cancelled expired.
  split; [apply perm_swap |].
  split; [vm_compute; reflexivity |].
  split; [vm_compute; reflexivity | discriminate].
Qed.

(** Nor does it hold with distinct ids once a timestamp is not a number: every
    comparison with that timestamp falls through to the priorities. *)
Example pick_depends_on_order_undated :
  let a := Reservation.mk 1 1 ReservationStatus.CANCELLED
             (Some (Instant 10)) None None None in
  let b := Reservation.mk 2 1 ReservationStatus.PENDING_RESERVED
             (Some Unparsable) None None None in
  let c := Reservation.mk 3 1 ReservationStatus.PENDING_RESERVED
             None (Some (Instant 5)) None None in
  [a; b; c] ≡ₚ [a; c; b]
  ∧ latestReservationByBook [a; b; c] !! 1 = Some c
  ∧ latestReservationByBook [a; c; b] !! 1 = Some b.
Proof.
  intros a b c.
  split; [apply perm_skip, perm_swap |].
  split; vm_compute; reflexivity.
Qed.

(** ** The action guards *)

Lemma canReserve_spec (book : Book.t) (reservation : option Reservation.t) :
  canReserve book reservation = true ↔
  displayedStatus book = BookStatus.AVAILABLE ∧ reservation = None.
Proof.
  unfold canReserve. rewrite andb_true_iff, bool_decide_eq_true.
  destruct reservation; simpl; intuition congruence.
Qed.

Lemma canTake_spec (reservation : option Reservation.t) :
  canTake reservation = true ↔
  ∃ r, reservation = Some r ∧ ¬ is_set (Reservation.takenAt r).
Proof.
  unfold canTake, is_set. destruct reservation as [r |].
  - rewrite negb_true_iff, <- not_true_iff_false. split.
    + intros H. exists r. auto.
    + intros (r' & [= <-] & H). exact H.
  - split; [discriminate | intros (? & ? & _); discriminate].
Qed.

Lemma canReturn_spec (reservation : option Reservation.t) :
  canReturn reservation = true ↔
  ∃ r, reservation = Some r
       ∧ is_set (Reservation.takenAt r)
       ∧ ¬ is_set (Reservation.returnedAt r).
Proof.
  unfold canReturn, is_set. destruct reservation as [r |].
  - rewrite andb_true_iff, negb_true_iff, <- not_true_iff_false. split.
    + intros H. exists r. auto.
    + intros (r' & [= <-] & H). exact H.
  - split; [discriminate | intros (? & ? & _); discriminate].
Qed.

(** C5. canReserve holds exactly when the displayed book status is AVAILABLE
    and there is no current reservation, canTake exactly when a reservation
    exists with takenAt unset, canReturn exactly when a reservation exists
    with takenAt set and returnedAt unset; and at most one of the three holds
    at a time. *)
Theorem guards_exclusive (book : Book.t) (reservation : option Reservation.t) :
  (canReserve book reservation = true ↔
     displayedStatus book = BookStatus.AVAILABLE ∧ reservation = None)
  ∧ (canTake reservation = true ↔
     ∃ r, reservation = Some r ∧ ¬ is_set (Reservation.takenAt r))
  ∧ (canReturn reservation = true ↔
     ∃ r, reservation = Some r
          ∧ is_set (Reservation.takenAt r)
          ∧ ¬ is_set (Reservation.returnedAt r))
  ∧ (Nat.b2n (canReserve book reservation)
     + Nat.b2n (canTake reservation)
     + Nat.b2n (canReturn reservation) ≤ 1)%nat.
Proof.
  split; [apply canReserve_spec |].
  split; [apply canTake_spec |].
  split; [apply canReturn_spec |].
  unfold canReserve, canTake, canReturn.
  destruct reservation as [r |]; simpl.
  - rewrite andb_false_r.
    destruct (truthy (Reservation.takenAt r)),
      (truthy (Reservation.returnedAt r)); simpl; lia.
  - destruct (bool_decide _); simpl; lia.
Qed.

(** C9. canCancel and canTake are the same guard: each holds exactly when a
    reservation exists and its takenAt is unset. *)
Theorem canCancel_is_canTake (reservation : option Reservation.t) :
  canCancel reservation = canTake reservation
  ∧ (canCancel reservation = true ↔
     ∃ r, reservation = Some r ∧ ¬ is_set (Reservation.takenAt r))
  ∧ (canTake reservation = true ↔
     ∃ r, reservation = Some r ∧ ¬ is_set (Reservation.takenAt r)).
Proof.
  assert (canCancel reservation = canTake reservation) as E
    by (by destruct reservation).
  split; [exact E |]. rewrite E.
  split; apply canTake_spec.
Qed.

(** C10. A book whose status field is missing is displayed and guarded as
    AVAILABLE: canReserve then holds exactly when there is no current
    reservation. *)
Theorem missing_status_is_available
    (book : Book.t) (reservation : option Reservation.t) :
  Book.status book = None →
  displayedStatus book = BookStatus.AVAILABLE
  ∧ canReserve book reservation = absent reservation
  ∧ canReserve book None = true.
Proof.
  intros Hnone. unfold canReserve, displayedStatus. rewrite Hnone. simpl.
  split; [done |]. split; [| done]. by destruct reservation.
Qed.

Lemma missing_status_is_available_example :
  displayedStatus (Book.mk 1 None) = BookStatus.AVAILABLE
  ∧ canReserve (Book.mk 1 None) None = absent (None : option Reservation.t)
  ∧ canReserve (Book.mk 1 None) None = true.
Proof. exact (missing_status_is_available (Book.mk 1 None) None eq_refl). Defined.

(** Scenario A of the spec: with a pending reservation take and cancel are
    offered, reserve is not. *)
Example guards_scenario_A :
  let r := Reservation.mk 1 1 ReservationStatus.PENDING_RESERVED
             (Some (Instant 1704067200000)) None None None in
  canTake (Some r) = true ∧ canCancel (Some r) = true
  ∧ canReserve (Book.mk 1 (Some BookStatus.AVAILABLE)) (Some r) = false.
Proof. by vm_compute. Qed.

(** ** The error classifier *)

Lemma prefix_app_l (a b s : string) :
  String.prefix (a ++ b) s = true → String.prefix a s = true.
Proof.
  revert s. induction a as [| c a IH]; intros s; [by destruct s |].
  destruct s as [| d s]; simpl; [done |].
  destruct (ascii_dec c d); [apply IH | done].
Qed.

Lemma includes_app_l (haystack a b : string) :
  includes haystack (a ++ b) = true → includes haystack a = true.
Proof.
  induction haystack as [| c rest IH];
    cbn [includes]; rewrite ?orb_false_r, ?orb_true_iff.
  - apply prefix_app_l.
  - intros [H | H]; [left; by apply prefix_app_l in H | right; by apply IH].
Qed.

(** The longer marker of the first test is covered by the shorter one. *)
Lemma limit_markers (normalized : string) :
  includes normalized "maximum number of reserved books"
  || includes normalized "maximum number"
  = includes normalized "maximum number".
Proof.
  destruct (includes normalized "maximum number") eqn:E.
  - apply orb_true_r.
  - rewrite orb_false_r. apply not_true_is_false. intros H.
    apply (includes_app_l normalized "maximum number" " of reserved books") in H.
    congruence.
Qed.

(** C4 (amended). The classifier follows the fixed precedence of section 7
    with "maximum number", looked for without regard to case, as the marker
    of the reservation-limit message: first that marker, else status 409 for
    the not-available message, else status 400 with a non-empty message shown
    verbatim, else the generic message. *)
Theorem resolveReservationErrorMessage_precedence (error : AxiosError.t) :
  resolveReservationErrorMessage error = classify "maximum number" error.
Proof.
  unfold resolveReservationErrorMessage, classify, serverMessage, serverStatus.
  cbn zeta. by rewrite limit_markers.
Qed.

(** C4 as stated fails: a conflict whose message mentions a maximum number of
    something else is shown as the reservation limit, not as "no longer
    available". *)
Lemma classifier_wider_marker :
  let error :=
    AxiosError.mk
      (Some (Response.mk (DataString "Maximum number of attempts exceeded")
                         (Some 409))) in
  resolveReservationErrorMessage error
    = Translated "reservation.errors.limitReached"
  ∧ classify "maximum number of reserved books" error
    = Translated "reservation.errors.notAvailable".
Proof. intros error. split; vm_compute; reflexivity. Qed.

(** The four outcomes of the classifier on plain inputs. *)
Example classifier_outcomes :
  resolveReservationErrorMessage
    (AxiosError.mk
       (Some (Response.mk
                (DataObject (Some "Maximum number of reserved books reached") None)
                (Some 400))))
    = Translated "reservation.errors.limitReached"
  ∧ resolveReservationErrorMessage
      (AxiosError.mk (Some (Response.mk (DataString "taken") (Some 409))))
    = Translated "reservation.errors.notAvailable"
  ∧ resolveReservationErrorMessage
      (AxiosError.mk
         (Some (Response.mk (DataObject None (Some "Bad id")) (Some 400))))
    = Verbatim "Bad id"
  ∧ resolveReservationErrorMessage (AxiosError.mk None)
    = Translated "reservation.errors.generic".
Proof. repeat split; vm_compute; reflexivity. Qed.

(** ** The reservation mutations *)

Lemma mutations_alike (action : Action) : mutationOf action = reserveMutation.
Proof. by destruct action. Qed.

(** C3 (amended). When a mutation fails, the rollback puts the cached unread
    count back to its pre-mutation value, and the resync, which runs after the
    rollback, overwrites it with the count the server answers: the final
    cached count is the server's, and it equals the pre-mutation value exactly
    when the server's count does. *)
Theorem failed_mutation_counter
    (action : Action) (error : AxiosError.t) (answer : Z) (w : World) :
  let rolledBack := exec (runUntilRollback (mutationOf action) error) w in
  let settled := exec (runMutation (mutationOf action) (Rejected error) answer) w in
  unreadCount (queryClient rolledBack) = unreadCount (queryClient w)
  ∧ unreadCount (queryClient settled) = answer
  ∧ counterLog settled = counterLog w ++ [Incremented; RolledBack; Resynced]
  ∧ (unreadCount (queryClient settled) = unreadCount (queryClient w)
     ↔ answer = unreadCount (queryClient w)).
Proof.
  rewrite mutations_alike. cbn.
  rewrite <- !app_assoc. simpl. done.
Qed.

(** C3 as stated fails: the count was 2 before the failed reserve and the
    server answers 5 to the resync; the cache ends at 5. *)
Lemma failed_mutation_counter_drift :
  let w :=
    {| queryClient :=
         {| unreadCount := 2; activeReservations := []; bookData := None;
            invalidated := [] |};
       reservationError := None;
       counterLog := [] |} in
  let error := AxiosError.mk (Some (Response.mk DataOther (Some 409))) in
  let settled := exec (runMutation reserveMutation (Rejected error) 5) w in
  unreadCount (queryClient w) = 2
  ∧ counterLog settled = [Incremented; RolledBack; Resynced]
  ∧ unreadCount (queryClient settled) = 5.
Proof. by vm_compute. Qed.

(** Scenario E of the spec: the count starts at 2, the reserve fails with a
    conflict, the server answers 2. *)
Example counter_scenario_E :
  let w :=
    {| queryClient :=
         {| unreadCount := 2; activeReservations := []; bookData := None;
            invalidated := [] |};
       reservationError := None;
       counterLog := [] |} in
  let error := AxiosError.mk (Some (Response.mk DataOther (Some 409))) in
  unreadCount (queryClient (exec optimisticIncrementUnread w)) = 3
  ∧ unreadCount
      (queryClient (exec (runUntilRollback reserveMutation error) w)) = 2
  ∧ unreadCount
      (queryClient (exec (runMutation reserveMutation (Rejected error) 2) w)) = 2.
Proof. by vm_compute. Qed.

(** C8. A failed mutation leaves the cached reservations, the cached book and
    the set of invalidated queries as they were, so the current reservation
    and the guards derived from them are unchanged; its error handler only
    puts the unread count back and sets the error message. *)
Theorem failed_mutation_frame
    (action : Action) (error : AxiosError.t) (answer : Z)
    (context : UnreadContext) (w : World) :
  let settled := exec (runMutation (mutationOf action) (Rejected error) answer) w in
  let handled := exec (onError (mutationOf action) error context) w in
  activeReservations (queryClient settled) = activeReservations (queryClient w)
  ∧ bookData (queryClient settled) = bookData (queryClient w)
  ∧ invalidated (queryClient settled) = invalidated (queryClient w)
  ∧ currentReservation settled = currentReservation w
  ∧ guards settled = guards w
  ∧ reservationError settled = Some (resolveReservationErrorMessage error)
  ∧ queryClient handled =
      {| unreadCount := previous context;
         activeReservations := activeReservations (queryClient w);
         bookData := bookData (queryClient w);
         invalidated := invalidated (queryClient w) |}
  ∧ reservationError handled = Some (resolveReservationErrorMessage error).
Proof.
  rewrite mutations_alike. cbn. done.
Qed.

(** * Further properties of the code *)

(** ** The picker and the comparator, on any input *)

Lemma entry_kept
    (seen : list Reservation.t) (x : Reservation.t) (book : Z)
    (entry : option Reservation.t) :
  Reservation.bookId x ≠ book →
  match entry with
  | None => ∀ r, r ∈ seen → Reservation.bookId r ≠ book
  | Some chosen => chosen ∈ seen ∧ Reservation.bookId chosen = book
  end →
  match entry with
  | None => ∀ r, r ∈ seen ++ [x] → Reservation.bookId r ≠ book
  | Some chosen => chosen ∈ seen ++ [x] ∧ Reservation.bookId chosen = book
  end.
Proof.
  intros Hne. destruct entry as [chosen |].
  - intros [Hin Hb]. split; [apply elem_of_app; by left | done].
  - intros Hnone r Hr. apply elem_of_app in Hr as [Hr | Hr]; [by apply Hnone |].
    apply list_elem_of_singleton in Hr as ->. done.
Qed.

Lemma latest_entries_from_input (reservations : list Reservation.t) (book : Z) :
  match latestReservationByBook reservations !! book with
  | None => ∀ r, r ∈ reservations → Reservation.bookId r ≠ book
  | Some chosen => chosen ∈ reservations ∧ Reservation.bookId chosen = book
  end.
Proof.
  unfold latestReservationByBook. revert book.
  induction reservations as [| x seen IH] using rev_ind; intros book.
  - simpl. rewrite lookup_empty. intros r Hr. by apply elem_of_nil in Hr.
  - rewrite foldl_snoc.
    pose proof (IH (Reservation.bookId x)) as Hown.
    pose proof (IH book) as Hbook.
    set (latest := foldl recordReservation ∅ seen) in *.
    unfold recordReservation.
    destruct (latest !! Reservation.bookId x) as [previous |] eqn:Eprev.
    + destruct Hown as [Hin Hsame].
      destruct (decide (Reservation.bookId x = book)) as [<- | Hne].
      * rewrite lookup_insert_eq.
        destruct (pick_one_of previous x) as [-> | ->]; set_solver.
      * rewrite lookup_insert_ne by done. by apply entry_kept.
    + destruct (decide (Reservation.bookId x = book)) as [<- | Hne].
      * rewrite lookup_insert_eq. set_solver.
      * rewrite lookup_insert_ne by done. by apply entry_kept.
Qed.

(** X1. Whatever the input, the picker files under a bookId a reservation of
    the input that belongs to that book, and it has an entry for a book
    exactly when the input holds a reservation of that book. *)
Theorem picker_entries
    (reservations : list Reservation.t) (book : Z) (chosen : Reservation.t) :
  (latestReservationByBook reservations !! book = Some chosen →
     chosen ∈ reservations ∧ Reservation.bookId chosen = book)
  ∧ (is_Some (latestReservationByBook reservations !! book) ↔
     ∃ r, r ∈ reservations ∧ Reservation.bookId r = book)
  ∧ (reservations = [] → latestReservationByBook reservations = ∅).
Proof.
  pose proof (latest_entries_from_input reservations book) as H.
  split; [| split].
  - intros E. by rewrite E in H.
  - destruct (latestReservationByBook reservations !! book) as [r |].
    + split; [intros _; by exists r | intros _; by eexists].
    + split; [by intros [? ?] | intros (r & Hr & Hb); by destruct (H r Hr)].
  - by intros ->.
Qed.

(** X2. When every timestamp is a number, the reservation the picker holds
    for a book is outranked by no reservation of that book in the input: none
    has a later timestamp. *)
Theorem picker_selects_latest
    (reservations : list Reservation.t) (book : Z) (chosen r : Reservation.t) :
  Forall dated reservations →
  latestReservationByBook reservations !! book = Some chosen →
  r ∈ reservations →
  Reservation.bookId r = book →
  no_more_relevant r chosen ∧ timeOf r ≤ timeOf chosen.
Proof.
  intros Hdated Hchosen Hr Hbook.
  pose proof (latest_holds_most_relevant _ Hdated book) as H.
  rewrite Hchosen in H. destruct H as (_ & _ & Hmax).
  specialize (Hmax r Hr Hbook). split; [done |].
  unfold no_more_relevant in Hmax. lia.
Qed.

Lemma picker_selects_latest_scenario_C :
  let r10 := Reservation.mk 10 5 ReservationStatus.COMPLETED
               None (Some (Instant 1709251200000)) None None in
  let r11 := Reservation.mk 11 5 ReservationStatus.RETURNED
               None None (Some (Instant 1709337600000)) None in
  no_more_relevant r10 r11 ∧ timeOf r10 ≤ timeOf r11.
Proof.
  intros r10 r11.
  apply (picker_selects_latest [r10; r11] 5 r11 r10).
  - repeat constructor; eexists; reflexivity.
  - vm_compute. reflexivity.
  - constructor.
  - reflexivity.
Defined.

Lemma pick_dated (current next : Reservation.t) :
  dated current → dated next →
  pickMoreRelevantReservation current next =
    if decide (no_more_relevant current next) then next else current.
Proof.
  intros Hc Hn.
  pose proof (dated_time _ Hc) as Ec. pose proof (dated_time _ Hn) as En.
  unfold pickMoreRelevantReservation.
  rewrite js_gt_lt, Ec, En, !js_lt_Num.
  case_decide as Hle; unfold no_more_relevant, priorityOf in Hle;
    repeat case_bool_decide; first [done | lia].
Qed.

(** X3. On two reservations with numeric timestamps and different ids the
    comparator does not depend on which one is [current] and which [next]. *)
Theorem comparator_commutative (a b : Reservation.t) :
  dated a → dated b →
  Reservation.id a ≠ Reservation.id b →
  pickMoreRelevantReservation a b = pickMoreRelevantReservation b a.
Proof.
  intros Ha Hb Hid. rewrite !pick_dated by done.
  repeat case_decide; try done;
    unfold no_more_relevant in *; lia.
Qed.

Lemma comparator_commutative_scenario_D :
  let r3 := Reservation.mk 3 7 ReservationStatus.PENDING_RESERVED
              (Some (Instant 1704067200000)) None None None in
  let r8 := Reservation.mk 8 7 ReservationStatus.PENDING_RESERVED
              (Some (Instant 1704067200000)) None None None in
  pickMoreRelevantReservation r3 r8 = pickMoreRelevantReservation r8 r3.
Proof.
  intros r3 r8. apply comparator_commutative.
  - eexists; reflexivity.
  - eexists; reflexivity.
  - discriminate.
Defined.

(** X4. On reservations with numeric timestamps the comparator is
    associative: reducing a run of reservations pairwise gives the same winner
    however the pairs are grouped. *)
Theorem comparator_associative (a b c : Reservation.t) :
  dated a → dated b → dated c →
  pickMoreRelevantReservation (pickMoreRelevantReservation a b) c
  = pickMoreRelevantReservation a (pickMoreRelevantReservation b c).
Proof.
  intros Ha Hb Hc.
  assert (dated (pickMoreRelevantReservation a b)) as Hab
    by (destruct (pick_one_of a b) as [-> | ->]; done).
  assert (dated (pickMoreRelevantReservation b c)) as Hbc
    by (destruct (pick_one_of b c) as [-> | ->]; done).
  rewrite (pick_dated _ c Hab Hc), (pick_dated a _ Ha Hbc).
  rewrite (pick_dated a b Ha Hb), (pick_dated b c Hb Hc).
  repeat case_decide; try done;
    unfold no_more_relevant in *; lia.
Qed.

Lemma comparator_associative_example :
  let a := Reservation.mk 1 1 ReservationStatus.CANCELLED
             (Some (Instant 10)) None None None in
  let b := Reservation.mk 2 1 ReservationStatus.PENDING_RESERVED
             (Some (Instant 10)) None None None in
  let c := Reservation.mk 3 1 ReservationStatus.PENDING_RESERVED
             None (Some (Instant 5)) None None in
  pickMoreRelevantReservation (pickMoreRelevantReservation a b) c
  = pickMoreRelevantReservation a (pickMoreRelevantReservation b c).
Proof.
  intros a b c.
  apply comparator_associative; eexists; reflexivity.
Defined.

(** ** Slices and pages *)

Lemma slice_forward {A : Type} (array : list A) (start finish : Z) :
  0 ≤ start → start ≤ finish →
  slice array start finish
  = firstn (Z.to_nat (finish - start)) (skipn (Z.to_nat start) array).
Proof.
  intros Hs Hf. unfold slice, relativeIndex.
  rewrite !bool_decide_eq_false_2 by lia.
  destruct (decide (Z.of_nat (length array) ≤ start)) as [Hout | Hin].
  - rewrite !drop_ge by lia. by destruct (Z.to_nat _), (Z.to_nat _).
  - replace (start `min` Z.of_nat (length array)) with start by lia.
    destruct (decide (finish ≤ Z.of_nat (length array))) as [Hle | Hgt].
    + by replace (finish `min` Z.of_nat (length array)) with finish by lia.
    + rewrite !take_ge; [done | |]; rewrite length_drop; lia.
Qed.

Lemma slice_sublist {A : Type} (array : list A) (start finish : Z) :
  slice array start finish `sublist_of` array.
Proof.
  unfold slice. etrans; [apply sublist_take | apply sublist_drop].
Qed.

Lemma chunks_concat {A : Type} (array : list A) (size n : nat) :
  concat ((λ i, firstn size (skipn (i * size) array)) <$> seq 0 n)
  = firstn (n * size) array.
Proof.
  induction n as [| n IH]; [done |].
  rewrite seq_S, fmap_app, concat_app, IH. simpl.
  rewrite app_nil_r, take_take_drop. f_equal. lia.
Qed.

Lemma totalPages_bounds {A : Type} (items : list A) :
  1 ≤ totalPages items
  ∧ Z.of_nat (length items) ≤ totalPages items * PAGE_SIZE
  ∧ (items ≠ [] → (totalPages items - 1) * PAGE_SIZE < Z.of_nat (length items)).
Proof.
  unfold totalPages, PAGE_SIZE.
  pose proof (Z.div_mod (Z.of_nat (length items) + 8 - 1) 8 ltac:(lia)) as Hdm.
  pose proof (Z.mod_pos_bound (Z.of_nat (length items) + 8 - 1) 8 ltac:(lia)) as Hm.
  split; [lia |]. split; [lia |].
  intros Hne. destruct items; [done |]. simpl length in *. lia.
Qed.

(** X5. The pages 1 to totalPages, one after the other, are the list: every
    book is on exactly one page and in its place. *)
Theorem pages_cover_list {A : Type} (items : list A) :
  concat ((λ page, pagedList page items) <$> seqZ 1 (totalPages items)) = items.
Proof.
  destruct (totalPages_bounds items) as (Hone & Hall & _).
  unfold seqZ. rewrite <- list_fmap_compose.
  rewrite (list_fmap_ext _
    (λ i, firstn (Z.to_nat PAGE_SIZE) (skipn (i * Z.to_nat PAGE_SIZE) items))).
  - rewrite chunks_concat. apply take_ge. unfold PAGE_SIZE in *. lia.
  - intros i x Hx. apply lookup_seq in Hx as [Hx Hi]. simpl in Hx. subst x.
    simpl.
    unfold pagedList, currentPage.
    replace ((Z.of_nat i + 1) `min` totalPages items) with (Z.of_nat i + 1)
      by lia.
    rewrite slice_forward by (unfold PAGE_SIZE; lia).
    unfold PAGE_SIZE. f_equal; [lia |]. f_equal. lia.
Qed.

(** X6. For a page number from 1 up, the page shown has at most PAGE_SIZE
    books, is a piece of the list, is not empty unless the list is, and a page
    number beyond the last page shows the last page. *)
Theorem page_within_bounds {A : Type} (page : Z) (items : list A) :
  1 ≤ page →
  1 ≤ currentPage page items ≤ totalPages items
  ∧ Z.of_nat (length (pagedList page items)) ≤ PAGE_SIZE
  ∧ pagedList page items `sublist_of` items
  ∧ (items ≠ [] → pagedList page items ≠ [])
  ∧ (totalPages items ≤ page →
     pagedList page items = pagedList (totalPages items) items).
Proof.
  intros Hpage.
  destruct (totalPages_bounds items) as (Hone & Hall & Hlast).
  assert (1 ≤ currentPage page items ≤ totalPages items) as Hcur
    by (unfold currentPage; lia).
  split; [done |].
  split; [| split; [apply slice_sublist | split]].
  - unfold pagedList. rewrite slice_forward by (unfold PAGE_SIZE; lia).
    rewrite length_take. unfold PAGE_SIZE. lia.
  - intros Hne Hnil. specialize (Hlast Hne).
    apply (f_equal length) in Hnil. revert Hnil.
    unfold pagedList. rewrite slice_forward by (unfold PAGE_SIZE; lia).
    rewrite length_take, length_drop. unfold PAGE_SIZE in *. simpl. lia.
  - intros Hbeyond. unfold pagedList, currentPage.
    by replace (page `min` totalPages items)
      with (totalPages items `min` totalPages items) by lia.
Qed.

Lemma page_within_bounds_example :
  1 ≤ currentPage 3 [1; 2; 3; 4; 5; 6; 7; 8; 9; 10]
    ≤ totalPages [1; 2; 3; 4; 5; 6; 7; 8; 9; 10]
  ∧ Z.of_nat (length (pagedList 3 [1; 2; 3; 4; 5; 6; 7; 8; 9; 10])) ≤ PAGE_SIZE
  ∧ pagedList 3 [1; 2; 3; 4; 5; 6; 7; 8; 9; 10]
      `sublist_of` [1; 2; 3; 4; 5; 6; 7; 8; 9; 10]
  ∧ ([1; 2; 3; 4; 5; 6; 7; 8; 9; 10] ≠ [] →
     pagedList 3 [1; 2; 3; 4; 5; 6; 7; 8; 9; 10] ≠ [])
  ∧ (totalPages [1; 2; 3; 4; 5; 6; 7; 8; 9; 10] ≤ 3 →
     pagedList 3 [1; 2; 3; 4; 5; 6; 7; 8; 9; 10]
     = pagedList (totalPages [1; 2; 3; 4; 5; 6; 7; 8; 9; 10])
         [1; 2; 3; 4; 5; 6; 7; 8; 9; 10]).
Proof.
  apply (page_within_bounds 3 [1; 2; 3; 4; 5; 6; 7; 8; 9; 10]). lia.
Defined.

Example pages_of_ten :
  totalPages [1; 2; 3; 4; 5; 6; 7; 8; 9; 10] = 2
  ∧ pagedList 1 [1; 2; 3; 4; 5; 6; 7; 8; 9; 10] = [1; 2; 3; 4; 5; 6; 7; 8]
  ∧ pagedList 2 [1; 2; 3; 4; 5; 6; 7; 8; 9; 10] = [9; 10]
  ∧ pagedList 3 [1; 2; 3; 4; 5; 6; 7; 8; 9; 10] = [9; 10]
  ∧ pagedList 1 ([] : list Z) = [].
Proof. by vm_compute. Qed.

(** ** Reviews shown and the "show more" button *)

(** X7. With a non-negative count the reviews shown are the first [count]
    reviews (all of them when there are fewer), and the "show more" button
    appears exactly when some review is not shown. *)
Theorem visible_reviews_prefix {A : Type} (reviews : list A) (count : Z) :
  0 ≤ count →
  visibleReviews reviews count = firstn (Z.to_nat count) reviews
  ∧ Z.of_nat (length (visibleReviews reviews count))
    = count `min` Z.of_nat (length reviews)
  ∧ (hasMoreReviews reviews count = true ↔
     (length (visibleReviews reviews count) < length reviews)%nat)
  ∧ (hasMoreReviews reviews count = false ↔
     visibleReviews reviews count = reviews).
Proof.
  intros Hcount. unfold visibleReviews, hasMoreReviews.
  rewrite slice_forward by lia. rewrite Z.sub_0_r.
  change (skipn (Z.to_nat 0) reviews) with reviews.
  split; [done |]. rewrite length_take.
  split; [lia |].
  split.
  - rewrite bool_decide_eq_true. lia.
  - rewrite bool_decide_eq_false. split.
    + intros H. apply take_ge. lia.
    + intros H. apply (f_equal length) in H. rewrite length_take in H. lia.
Qed.

Lemma visible_reviews_prefix_example :
  visibleReviews [1; 2; 3; 4; 5; 6; 7] 5 = firstn (Z.to_nat 5) [1; 2; 3; 4; 5; 6; 7]
  ∧ Z.of_nat (length (visibleReviews [1; 2; 3; 4; 5; 6; 7] 5))
    = 5 `min` Z.of_nat (length [1; 2; 3; 4; 5; 6; 7])
  ∧ (hasMoreReviews [1; 2; 3; 4; 5; 6; 7] 5 = true ↔
     (length (visibleReviews [1; 2; 3; 4; 5; 6; 7] 5)
      < length [1; 2; 3; 4; 5; 6; 7])%nat)
  ∧ (hasMoreReviews [1; 2; 3; 4; 5; 6; 7] 5 = false ↔
     visibleReviews [1; 2; 3; 4; 5; 6; 7] 5 = [1; 2; 3; 4; 5; 6; 7]).
Proof. apply (visible_reviews_prefix [1; 2; 3; 4; 5; 6; 7] 5). lia. Defined.

(** X8. "Show more" raises the count of the book by REVIEWS_PAGE_SIZE,
    starting from REVIEWS_PAGE_SIZE when the book has no count yet, and leaves
    the counts of the other books as they were. *)
Theorem show_more_adds_a_page (key other : Z) (prev : gmap Z Z) :
  visibleReviewsCount true key (showMoreReviews key prev)
  = visibleReviewsCount true key prev + REVIEWS_PAGE_SIZE
  ∧ (prev !! key = None →
     visibleReviewsCount true key (showMoreReviews key prev)
     = 2 * REVIEWS_PAGE_SIZE)
  ∧ (other ≠ key →
     visibleReviewsCount true other (showMoreReviews key prev)
     = visibleReviewsCount true other prev).
Proof.
  unfold visibleReviewsCount, showMoreReviews.
  rewrite lookup_insert_eq. simpl.
  split; [done |]. split.
  - intros ->. simpl. unfold REVIEWS_PAGE_SIZE. lia.
  - intros Hne. by rewrite lookup_insert_ne.
Qed.

(** ** Similar books *)

(** X9. The similar books never include the book itself, are at most eight
    cards of books of the catalogue, and all share the book's category as soon
    as the book has one and another book of the catalogue has it too. *)
Theorem similar_books_sound
    (book : ApiBook.t) (booksData : list ApiBook.t) (card : CardBook.t) :
  card ∈ similarBooks (Some book) booksData →
  CardBook.id card ≠ ApiBook.id book
  ∧ (∃ item, item ∈ booksData ∧ card = mapBookToCard item)
  ∧ (length (similarBooks (Some book) booksData) ≤ 8)%nat
  ∧ (truthyString (ApiBook.category book) = true →
     (∃ item, item ∈ booksData
              ∧ ApiBook.id item ≠ ApiBook.id book
              ∧ ApiBook.category item = ApiBook.category book) →
     CardBook.category card = ApiBook.category book).
Proof.
  unfold similarBooks.
  set (sameCategory :=
    filter (λ item, ApiBook.id item ≠ ApiBook.id book
                    ∧ ApiBook.category item = ApiBook.category book) booksData).
  set (others := filter (λ item, ApiBook.id item ≠ ApiBook.id book) booksData).
  intros Hcard.
  apply list_elem_of_fmap in Hcard as (item & -> & Hitem).
  pose proof (elem_of_sublist _ _ _ Hitem (slice_sublist _ 0 8)) as Hsrc.
  assert (ApiBook.id item ≠ ApiBook.id book ∧ item ∈ booksData) as [Hid Hin].
  { destruct (truthyString (ApiBook.category book)).
    - destruct (nonEmpty sameCategory).
      + apply list_elem_of_filter in Hsrc as [[? ?] ?]. done.
      + apply list_elem_of_filter in Hsrc as [? ?]. done.
    - simpl in Hsrc. apply list_elem_of_filter in Hsrc as [? ?]. done. }
  split; [done |]. split; [by exists item |]. split.
  - rewrite length_fmap, slice_forward by lia. rewrite length_take. lia.
  - intros Hcat (other & Hother & Hoid & Hocat). rewrite Hcat in Hsrc.
    assert (other ∈ sameCategory) as Hsame
      by (apply list_elem_of_filter; done).
    destruct sameCategory as [| first rest] eqn:E; [by apply elem_of_nil in Hsame |].
    simpl in Hsrc. rewrite <- E in Hsrc.
    apply list_elem_of_filter in Hsrc as [[_ Hc] _]. exact Hc.
Qed.

Lemma similar_books_sound_example :
  let novel := ApiBook.mk 1 "Dune" "Herbert" None None None (Some "sci-fi") None in
  let sequel :=
    ApiBook.mk 2 "Dune Messiah" "Herbert" None None None (Some "sci-fi") None in
  let atlas := ApiBook.mk 3 "Atlas" "Various" None None None (Some "maps") None in
  CardBook.id (mapBookToCard sequel) ≠ ApiBook.id novel
  ∧ (∃ item, item ∈ [novel; sequel; atlas]
             ∧ mapBookToCard sequel = mapBookToCard item)
  ∧ (length (similarBooks (Some novel) [novel; sequel; atlas]) ≤ 8)%nat
  ∧ (truthyString (ApiBook.category novel) = true →
     (∃ item, item ∈ [novel; sequel; atlas]
              ∧ ApiBook.id item ≠ ApiBook.id novel
              ∧ ApiBook.category item = ApiBook.category novel) →
     CardBook.category (mapBookToCard sequel) = ApiBook.category novel).
Proof.
  intros novel sequel atlas.
  apply (similar_books_sound novel [novel; sequel; atlas] (mapBookToCard sequel)).
  vm_compute. constructor.
Defined.

(** The fallback of [similarBooks]: without a category, or when no other book
    shares it, the other books of the catalogue are offered. *)
Example similar_books_fallback :
  let novel := ApiBook.mk 1 "Dune" "Herbert" None None None (Some "sci-fi") None in
  let atlas := ApiBook.mk 3 "Atlas" "Various" None None None (Some "maps") None in
  similarBooks (Some novel) [novel; atlas] = [mapBookToCard atlas]
  ∧ similarBooks None [novel; atlas] = [].
Proof. by vm_compute. Qed.

(** ** The resolver and the guards together *)

(** X10. A return date decides the status whatever the book says; the book
    status is consulted for COMPLETED reservations only, where it decides
    between TAKEN (book in hand) and RETURNED. *)
Theorem book_status_matters_when_completed
    (r : Reservation.t) (b b' : option BookStatus.t) :
  (truthy (Reservation.returnedAt r) = true →
     getMyBookStatus r b = MyBookStatus.RETURNED)
  ∧ (Reservation.status r ≠ ReservationStatus.COMPLETED →
     getMyBookStatus r b = getMyBookStatus r b')
  ∧ (Reservation.status r = ReservationStatus.COMPLETED →
     truthy (Reservation.returnedAt r) = false →
     getMyBookStatus r b =
       if bool_decide (b = Some BookStatus.IN_YOUR_HANDS)
          || bool_decide (b = Some BookStatus.TAKEN)
       then MyBookStatus.TAKEN else MyBookStatus.RETURNED).
Proof.
  unfold getMyBookStatus. split; [| split].
  - by intros ->.
  - intros Hne. by rewrite !(bool_decide_eq_false_2 (_ = ReservationStatus.COMPLETED)).
  - intros -> ->. simpl.
    destruct (bool_decide _ || bool_decide _); simpl; [| done].
    by rewrite orb_true_r.
Qed.

(** X11. What the list of my books shows agrees with what the book page
    offers for the same reservation: a reservation listed as RESERVED can be
    taken or cancelled but not returned; one that can be returned is listed as
    TAKEN or RETURNED; and one with a return date can never be returned
    again. *)
Theorem listed_status_and_guards (r : Reservation.t) (b : option BookStatus.t) :
  (getMyBookStatus r b = MyBookStatus.RESERVED →
     canTake (Some r) = true ∧ canCancel (Some r) = true
     ∧ canReturn (Some r) = false)
  ∧ (canReturn (Some r) = true →
     getMyBookStatus r b = MyBookStatus.TAKEN
     ∨ getMyBookStatus r b = MyBookStatus.RETURNED)
  ∧ (truthy (Reservation.returnedAt r) = true →
     canReturn (Some r) = false
     ∧ getMyBookStatus r b = MyBookStatus.RETURNED).
Proof.
  unfold getMyBookStatus, canTake, canCancel, canReturn.
  destruct (truthy (Reservation.returnedAt r)),
    (truthy (Reservation.takenAt r)); simpl;
    repeat case_bool_decide; simpl;
    repeat split; intros; try done; auto.
Qed.

(** ** The current reservation of the book page *)

Lemma find_first {A : Type} (test : A → bool) (items : list A) :
  match List.find test items with
  | Some x =>
      test x = true
      ∧ ∃ before after,
          items = before ++ x :: after ∧ ∀ y, y ∈ before → test y = false
  | None => ∀ y, y ∈ items → test y = false
  end.
Proof.
  induction items as [| x rest IH]; simpl.
  - intros y Hy. by apply elem_of_nil in Hy.
  - destruct (test x) eqn:Ex.
    + split; [done |]. exists [], rest. split; [done |].
      intros y Hy. by apply elem_of_nil in Hy.
    + destruct (List.find test rest) as [found |].
      * destruct IH as (Hfound & before & after & -> & Hbefore).
        split; [done |]. exists (x :: before), after. split; [done |].
        intros y Hy. apply elem_of_cons in Hy as [-> | Hy]; auto.
      * intros y Hy. apply elem_of_cons in Hy as [-> | Hy]; auto.
Qed.

(** X12. The current reservation of the book page is the first active
    reservation of that book; there is none exactly when no active reservation
    is of that book, or when there is no book. *)
Theorem current_reservation_is_first
    (activeReservations : list Reservation.t) (book : Book.t) :
  match findReservation activeReservations (Some book) with
  | Some r =>
      Reservation.bookId r = Book.id book
      ∧ ∃ before after,
          activeReservations = before ++ r :: after
          ∧ ∀ other, other ∈ before → Reservation.bookId other ≠ Book.id book
  | None =>
      ∀ other, other ∈ activeReservations →
               Reservation.bookId other ≠ Book.id book
  end
  ∧ findReservation activeReservations None = None.
Proof.
  split; [| done]. unfold findReservation.
  pose proof (find_first
    (λ item, bool_decide (Reservation.bookId item = Book.id book))
    activeReservations) as H.
  destruct (List.find _ activeReservations) as [r |].
  - destruct H as (Hr & before & after & -> & Hbefore).
    split; [by apply bool_decide_eq_true in Hr |].
    exists before, after. split; [done |].
    intros other Hother. specialize (Hbefore other Hother).
    by apply bool_decide_eq_false in Hbefore.
  - intros other Hother. specialize (H other Hother).
    by apply bool_decide_eq_false in H.
Qed.

(** ** A mutation that succeeds *)

(** X13. The success handler of each mutation clears the error message and
    marks stale the reservations, the books and, unless the book id is 0, the
    detail of the book; it leaves the cached data and the unread count as
    they are. *)
Theorem success_handler_effects (action : Action) (w : World) :
  let after := exec (onSuccess (mutationOf action)) w in
  reservationError after = None
  ∧ invalidated (queryClient after)
    = invalidated (queryClient w) ++ [ReservationsKey; BooksKey]
      ++ match bookData (queryClient w) with
         | Some book =>
             if bool_decide (Book.id book = 0) then []
             else [BookKey (Book.id book)]
         | None => []
         end
  ∧ activeReservations (queryClient after) = activeReservations (queryClient w)
  ∧ bookData (queryClient after) = bookData (queryClient w)
  ∧ unreadCount (queryClient after) = unreadCount (queryClient w)
  ∧ counterLog after = counterLog w.
Proof.
  rewrite mutations_alike.
  unfold exec, reserveMutation, onSuccess, invalidateReservations, andThen,
    setReservationError, invalidateQueries, pure.
  simpl.
  destruct (bookData (queryClient w)) as [book |]; simpl.
  - destruct (bool_decide (Book.id book = 0)); simpl;
      rewrite <- ?app_assoc, ?app_nil_r; done.
  - rewrite <- ?app_assoc, ?app_nil_r. done.
Qed.

(** ** Sorting *)

Section Sorting.
Context {A : Type} (compare : A → A → number).

Lemma insertSorted_perm (x : A) (sorted : list A) :
  insertSorted compare x sorted ≡ₚ x :: sorted.
Proof.
  induction sorted as [| y rest IH]; simpl; [done |].
  destruct (sortsAfter (compare y x)); [done |].
  rewrite IH. apply perm_swap.
Qed.

Lemma sort_perm (array : list A) : sort compare array ≡ₚ array.
Proof.
  unfold sort. induction array as [| x seen IH] using rev_ind; [done |].
  rewrite foldl_snoc, insertSorted_perm, IH.
  apply Permutation_cons_append.
Qed.

Context (key : A → Z).

Lemma insertSorted_sorted (x : A) (sorted : list A) :
  (∀ y, y ∈ sorted → compare y x = Num (key x - key y)) →
  StronglySorted (λ a b, key b ≤ key a) sorted →
  StronglySorted (λ a b, key b ≤ key a) (insertSorted compare x sorted).
Proof.
  induction sorted as [| y rest IH]; intros Hcmp Hsorted; simpl.
  - repeat constructor.
  - apply StronglySorted_inv in Hsorted as [Hrest Hy].
    rewrite (Hcmp y) by constructor. simpl. case_bool_decide as Hlt.
    + constructor; [by constructor |].
      constructor; [lia |].
      eapply Forall_impl; [exact Hy |]. simpl. intros z Hz. lia.
    + constructor.
      * apply IH; [| done]. intros z Hz. apply Hcmp. by constructor.
      * rewrite insertSorted_perm. constructor; [lia | done].
Qed.

Lemma sort_sorted (array : list A) :
  (∀ a b, a ∈ array → b ∈ array → compare a b = Num (key b - key a)) →
  StronglySorted (λ a b, key b ≤ key a) (sort compare array).
Proof.
  unfold sort. induction array as [| x seen IH] using rev_ind; intros Hcmp.
  - constructor.
  - rewrite foldl_snoc. apply insertSorted_sorted.
    + intros y Hy. apply Hcmp.
      * apply elem_of_app. left.
        by rewrite <- (sort_perm seen).
      * apply elem_of_app. right. constructor.
    + apply IH. intros a b Ha Hb.
      apply Hcmp; apply elem_of_app; by left.
Qed.
End Sorting.

(** ** The map with insertion order *)

Section OrderedMap.
Context {V : Type}.
Implicit Types entries : list (Z * V).

Lemma Map_get_set entries (key key' : Z) (value : V) :
  Map_get (Map_set entries key value) key'
  = if decide (key = key') then Some value else Map_get entries key'.
Proof.
  induction entries as [| [k v] rest IH]; simpl.
  - done.
  - destruct (decide (k = key)) as [-> | Hne]; simpl.
    + by destruct (decide (key = key')).
    + rewrite IH. destruct (decide (k = key')) as [-> | ?]; [| done].
      by rewrite decide_False by done.
Qed.

Lemma Map_set_keys entries (key : Z) (value : V) :
  (fst <$> Map_set entries key value)
  = if decide (key ∈ fst <$> entries) then fst <$> entries
    else (fst <$> entries) ++ [key].
Proof.
  induction entries as [| [k v] rest IH].
  - destruct (decide (key ∈ fst <$> [])) as [Hin | _]; [| done].
    by apply elem_of_nil in Hin.
  - cbn [Map_set]. destruct (decide (k = key)) as [-> | Hne].
    + destruct (decide (key ∈ fst <$> (key, v) :: rest)) as [_ | Hout]; [done |].
      destruct Hout. constructor.
    + rewrite fmap_cons, IH. cbn [fst].
      destruct (decide (key ∈ fst <$> rest)) as [Hin | Hout];
        destruct (decide (key ∈ fst <$> (k, v) :: rest)) as [Hin' | Hout'];
        try done.
      * destruct Hout'. rewrite fmap_cons. by constructor.
      * rewrite fmap_cons in Hin'.
        apply elem_of_cons in Hin' as [-> | Hin']; done.
Qed.

Lemma Map_get_None entries (key : Z) :
  Map_get entries key = None ↔ key ∉ fst <$> entries.
Proof.
  induction entries as [| [k v] rest IH]; cbn [Map_get].
  - split; [intros _; apply not_elem_of_nil | done].
  - rewrite fmap_cons, not_elem_of_cons. cbn [fst].
    destruct (decide (k = key)) as [-> | Hne].
    + split; [done | by intros [? _]].
    + rewrite IH. split; [by split | by intros [_ ?]].
Qed.

Lemma Map_get_elem entries (key : Z) (value : V) :
  Map_get entries key = Some value → (key, value) ∈ entries.
Proof.
  induction entries as [| [k v] rest IH]; simpl; [done |].
  destruct (decide (k = key)) as [-> | Hne].
  - intros [= ->]. constructor.
  - intros H. constructor. by apply IH.
Qed.

Lemma Map_elem_get entries (key : Z) (value : V) :
  NoDup (fst <$> entries) →
  (key, value) ∈ entries → Map_get entries key = Some value.
Proof.
  induction entries as [| [k v] rest IH]; simpl; intros Hnd Hin.
  - by apply elem_of_nil in Hin.
  - apply NoDup_cons in Hnd as [Hk Hnd].
    apply elem_of_cons in Hin as [[= -> ->] | Hin].
    + by rewrite decide_True.
    + rewrite decide_False; [by apply IH |].
      intros ->. apply Hk. apply list_elem_of_fmap. by exists (key, value).
Qed.
End OrderedMap.

Lemma latestEntries_snoc (seen : list Reservation.t) (x : Reservation.t) :
  latestEntries (seen ++ [x]) = recordEntry (latestEntries seen) x.
Proof. unfold latestEntries. apply foldl_snoc. Qed.

Lemma latestReservationByBook_snoc (seen : list Reservation.t) (x : Reservation.t) :
  latestReservationByBook (seen ++ [x])
  = recordReservation (latestReservationByBook seen) x.
Proof. unfold latestReservationByBook. apply foldl_snoc. Qed.

(** The ordered map and the finite map of the picker hold the same entries. *)
Lemma latestEntries_get (reservations : list Reservation.t) (book : Z) :
  Map_get (latestEntries reservations) book
  = latestReservationByBook reservations !! book.
Proof.
  revert book.
  induction reservations as [| x seen IH] using rev_ind; intros book; [done |].
  rewrite latestEntries_snoc, latestReservationByBook_snoc.
  unfold recordEntry, recordReservation. rewrite IH.
  destruct (latestReservationByBook seen !! Reservation.bookId x);
    rewrite Map_get_set, lookup_insert, IH; done.
Qed.

Lemma latestEntries_keys_NoDup (reservations : list Reservation.t) :
  NoDup (fst <$> latestEntries reservations).
Proof.
  induction reservations as [| x seen IH] using rev_ind; [constructor |].
  rewrite latestEntries_snoc. unfold recordEntry.
  destruct (Map_get (latestEntries seen) (Reservation.bookId x));
    rewrite Map_set_keys; case_decide; try done;
    apply NoDup_app; (split; [done |]); (split; [| apply NoDup_singleton]);
    intros k Hk Hk'; apply list_elem_of_singleton in Hk' as ->; done.
Qed.

Lemma latestEntries_values (reservations : list Reservation.t) (r : Reservation.t) :
  r ∈ Map_values (latestEntries reservations) ↔
  ∃ book, latestReservationByBook reservations !! book = Some r.
Proof.
  unfold Map_values. rewrite list_elem_of_fmap. split.
  - intros ([k v] & -> & Hin). exists k. rewrite <- latestEntries_get.
    apply Map_elem_get; [apply latestEntries_keys_NoDup | done].
  - intros (book & Hbook). exists (book, r). split; [done |].
    apply Map_get_elem. by rewrite latestEntries_get.
Qed.

Lemma latestEntries_own_key (reservations : list Reservation.t) :
  Reservation.bookId <$> Map_values (latestEntries reservations)
  = fst <$> latestEntries reservations.
Proof.
  unfold Map_values. rewrite <- list_fmap_compose.
  apply list_fmap_ext. intros i [k v] Hi. simpl.
  apply list_elem_of_lookup_2 in Hi.
  pose proof (Map_elem_get _ _ _ (latestEntries_keys_NoDup reservations) Hi) as Hget.
  rewrite latestEntries_get in Hget.
  pose proof (latest_entries_from_input reservations k) as H.
  rewrite Hget in H. by destruct H.
Qed.

(** ** The list of my books *)

Lemma StronglySorted_map {A B : Type} (f : A → B) (R : B → B → Prop) (l : list A) :
  StronglySorted (λ x y, R (f x) (f y)) l → StronglySorted R (f <$> l).
Proof.
  induction 1 as [| x l Hsorted IH Hall]; simpl; constructor; [done |].
  by apply Forall_fmap.
Qed.

Lemma ownedBooks_ids (books : list ApiBook.t) (reservations : list Reservation.t) :
  MyBook.id <$> ownedBooks books reservations
  ≡ₚ fst <$> latestEntries reservations.
Proof.
  unfold ownedBooks. destruct reservations as [| first rest]; [done |].
  cbn [nonEmpty]. rewrite <- list_fmap_compose.
  rewrite (sort_perm byTimestampDescending).
  by rewrite <- latestEntries_own_key.
Qed.

Lemma ownedBooks_elem
    (books : list ApiBook.t) (reservations : list Reservation.t) (entry : MyBook.t) :
  entry ∈ ownedBooks books reservations ↔
  ∃ r, r ∈ Map_values (latestEntries reservations)
       ∧ entry = toMyBook (bookMapOf books) r.
Proof.
  unfold ownedBooks. destruct reservations as [| first rest].
  - split; [intros H; by apply elem_of_nil in H |].
    intros (r & Hr & _). by apply elem_of_nil in Hr.
  - cbn [nonEmpty]. rewrite list_elem_of_fmap.
    split; intros (r & H1 & H2); exists r.
    + split; [| done]. by rewrite <- (sort_perm byTimestampDescending).
    + split; [done |]. by rewrite (sort_perm byTimestampDescending).
Qed.

(** X14. The list of my books has one entry per book: no two entries carry
    the same id, the entries are the reservations the picker holds, each
    turned into a card of its book, and a book is listed exactly when the user
    has a reservation of it. *)
Theorem owned_books_one_per_book
    (books : list ApiBook.t) (reservations : list Reservation.t) :
  NoDup (MyBook.id <$> ownedBooks books reservations)
  ∧ (∀ entry,
       entry ∈ ownedBooks books reservations ↔
       ∃ r, latestReservationByBook reservations !! Reservation.bookId r = Some r
            ∧ entry = toMyBook (bookMapOf books) r)
  ∧ (∀ book,
       book ∈ MyBook.id <$> ownedBooks books reservations ↔
       ∃ r, r ∈ reservations ∧ Reservation.bookId r = book)
  ∧ (reservations = [] → ownedBooks books reservations = []).
Proof.
  split; [| split; [| split]].
  - rewrite ownedBooks_ids. apply latestEntries_keys_NoDup.
  - intros entry. rewrite ownedBooks_elem. split.
    + intros (r & Hr & ->). exists r. split; [| done].
      apply latestEntries_values in Hr as (book & Hbook).
      pose proof (latest_entries_from_input reservations book) as H.
      rewrite Hbook in H. destruct H as [_ <-]. done.
    + intros (r & Hr & ->). exists r. split; [| done].
      apply latestEntries_values. by eexists.
  - intros book. rewrite ownedBooks_ids.
    pose proof (latest_entries_from_input reservations book) as H.
    pose proof (Map_get_None (latestEntries reservations) book) as Hnone.
    rewrite latestEntries_get in Hnone.
    destruct (latestReservationByBook reservations !! book) as [chosen |].
    + destruct H as [Hin Hb]. split; [intros _; by exists chosen |].
      intros _. destruct (decide (book ∈ fst <$> latestEntries reservations));
        [done |]. by apply Hnone in n.
    + split.
      * intros Hin. by apply Hnone in Hin.
      * intros (r & Hr & Hb). by destruct (H r Hr).
  - by intros ->.
Qed.

(** X15. When every timestamp is a number the list of my books runs from the
    latest reservation to the earliest. *)
Theorem owned_books_latest_first
    (books : list ApiBook.t) (reservations : list Reservation.t) :
  Forall dated reservations →
  StronglySorted
    (λ earlier later,
       timeOf (MyBook.reservation later) ≤ timeOf (MyBook.reservation earlier))
    (ownedBooks books reservations).
Proof.
  intros Hdated. unfold ownedBooks.
  destruct (nonEmpty reservations); [| constructor].
  apply StronglySorted_map. simpl.
  apply (sort_sorted byTimestampDescending timeOf).
  assert (∀ r, r ∈ Map_values (latestEntries reservations) → dated r) as Hval.
  { intros r Hr. apply latestEntries_values in Hr as (book & Hbook).
    pose proof (latest_entries_from_input reservations book) as H.
    rewrite Hbook in H. destruct H as [Hin _].
    by eapply Forall_forall in Hdated. }
  intros a b Ha Hb. unfold byTimestampDescending.
  by rewrite (dated_time a (Hval a Ha)), (dated_time b (Hval b Hb)).
Qed.

Lemma owned_books_latest_first_example :
  let r10 := Reservation.mk 10 5 ReservationStatus.COMPLETED
               None (Some (Instant 1709251200000)) None None in
  let r3 := Reservation.mk 3 7 ReservationStatus.PENDING_RESERVED
              (Some (Instant 1704067200000)) None None None in
  let r11 := Reservation.mk 11 5 ReservationStatus.RETURNED
               None None (Some (Instant 1709337600000)) None in
  StronglySorted
    (λ earlier later,
       timeOf (MyBook.reservation later) ≤ timeOf (MyBook.reservation earlier))
    (ownedBooks [] [r3; r10; r11]).
Proof.
  intros r10 r3 r11. apply owned_books_latest_first.
  repeat constructor; eexists; reflexivity.
Defined.

Example owned_books_example :
  let r10 := Reservation.mk 10 5 ReservationStatus.COMPLETED
               None (Some (Instant 1709251200000)) None None in
  let r3 := Reservation.mk 3 7 ReservationStatus.PENDING_RESERVED
              (Some (Instant 1704067200000)) None None None in
  let r11 := Reservation.mk 11 5 ReservationStatus.RETURNED
               None None (Some (Instant 1709337600000)) None in
  let dune := ApiBook.mk 7 "Dune" "Herbert" None None None None
                (Some BookStatus.RESERVED) in
  ownedBooks [dune] [r3; r10; r11]
  = [ MyBook.mk 5 (Translated "book.untitled") "—" None
        MyBookStatus.RETURNED r11;
      MyBook.mk 7 (Verbatim "Dune") "Herbert" None
        MyBookStatus.RESERVED r3 ].
Proof. by vm_compute. Qed.

(** X16. The status tabs split the list of my books: the tab "all" shows the
    whole list, each other tab shows exactly the books with its status, in the
    order of the list, and every book is under exactly one of the four. *)
Theorem status_tabs_partition (owned : list MyBook.t) :
  byStatus all owned = owned
  ∧ (∀ status entry,
       entry ∈ byStatus (only status) owned ↔
       entry ∈ owned ∧ MyBook.status entry = status)
  ∧ (∀ status, byStatus (only status) owned `sublist_of` owned)
  ∧ byStatus (only MyBookStatus.TAKEN) owned
    ++ byStatus (only MyBookStatus.RESERVED) owned
    ++ byStatus (only MyBookStatus.RETURNED) owned
    ++ byStatus (only MyBookStatus.CANCELLED) owned
    ≡ₚ owned.
Proof.
  split; [done |]. split; [| split].
  - intros status entry. simpl. rewrite list_elem_of_filter. tauto.
  - intros status. apply sublist_filter.
  - simpl. induction owned as [| entry rest IH]; [done |].
    rewrite !filter_cons.
    destruct (MyBook.status entry) eqn:E; simpl;
      repeat (case_decide; try done).
    + by rewrite IH.
    + rewrite <- Permutation_middle. by rewrite IH.
    + rewrite app_assoc, <- Permutation_middle, <- app_assoc. by rewrite IH.
    + rewrite !app_assoc, <- Permutation_middle, <- !app_assoc. by rewrite IH.
Qed.

(** ** The reviews shown *)

Lemma StronglySorted_sublist {A : Type} (R : A → A → Prop) (l k : list A) :
  l `sublist_of` k → StronglySorted R k → StronglySorted R l.
Proof.
  intros Hsub Hsorted. revert l Hsub.
  induction Hsorted as [| x k Hk IH Hall]; intros l Hsub.
  - apply sublist_nil_r in Hsub as ->. constructor.
  - apply sublist_cons_r in Hsub as [Hsub | (l' & -> & Hsub)]; [by apply IH |].
    constructor; [by apply IH |].
    apply Forall_forall. intros y Hy.
    eapply Forall_forall in Hall; [exact Hall |].
    by eapply elem_of_sublist.
Qed.

Lemma StronglySorted_suffix {A : Type} (R : A → A → Prop) (l k : list A) :
  StronglySorted R (l ++ k) → StronglySorted R k.
Proof.
  apply StronglySorted_sublist. apply sublist_inserts_l. done.
Qed.

Section ReviewsShown.
Context (String_trim String_toLocaleLowerCase : string → string).

Local Notation "'emailOf' review" :=
  (normalizeEmail String_trim String_toLocaleLowerCase (Review.userEmail review))
  (at level 10, review at level 9).
Local Notation "'keepUnique'" :=
  (filterUniqueEmails String_trim String_toLocaleLowerCase).

Lemma keepUnique_sublist (seen : gset string) (sorted : list Review.t) :
  keepUnique seen sorted `sublist_of` sorted.
Proof.
  revert seen. induction sorted as [| review rest IH]; intros seen; simpl.
  - constructor.
  - destruct (String.eqb _ _); [by constructor |].
    destruct (decide (_ ∈ seen)); by constructor.
Qed.

Lemma keepUnique_fresh (seen : gset string) (sorted : list Review.t) (x : Review.t) :
  x ∈ keepUnique seen sorted → emailOf x = ""%string ∨ emailOf x ∉ seen.
Proof.
  revert seen. induction sorted as [| review rest IH]; intros seen; simpl.
  - intros H. by apply elem_of_nil in H.
  - destruct (String.eqb (emailOf review) "") eqn:Eempty.
    + apply String.eqb_eq in Eempty.
      intros H. apply elem_of_cons in H as [-> | H]; [by left | by apply IH].
    + destruct (decide (emailOf review ∈ seen)) as [Hin | Hout].
      * apply IH.
      * intros H. apply elem_of_cons in H as [-> | H]; [by right |].
        apply IH in H as [H | H]; [by left | right]. set_solver.
Qed.

Lemma keepUnique_distinct
    (seen : gset string) (sorted : list Review.t) (i j : nat) (a b : Review.t) :
  keepUnique seen sorted !! i = Some a →
  keepUnique seen sorted !! j = Some b →
  (i < j)%nat →
  emailOf a ≠ ""%string →
  emailOf a ≠ emailOf b.
Proof.
  revert seen i j. induction sorted as [| review rest IH]; intros seen i j; simpl.
  - done.
  - assert (∀ seen', keepUnique seen' rest !! j = Some b →
                     emailOf b = ""%string ∨ emailOf b ∉ seen') as Hfresh.
    { intros seen' Hb. apply (keepUnique_fresh seen' rest).
      by eapply list_elem_of_lookup_2. }
    destruct (String.eqb (emailOf review) "") eqn:Eempty.
    + apply String.eqb_eq in Eempty.
      destruct i as [| i], j as [| j]; simpl; intros Ha Hb Hlt Hne; try lia.
      * by injection Ha as ->.
      * eapply (IH seen i j); eauto. lia.
    + destruct (decide (emailOf review ∈ seen)) as [Hin | Hout]; [apply IH |].
      destruct i as [| i], j as [| j]; simpl; intros Ha Hb Hlt Hne; try lia.
      * injection Ha as ->. intros Heq.
        pose proof (keepUnique_fresh _ _ _ (list_elem_of_lookup_2 _ _ _ Hb))
          as [Hempty | Hnew]; [congruence |].
        apply Hnew. rewrite <- Heq. set_solver.
      * eapply (IH _ i j); eauto. lia.
Qed.

Lemma keepUnique_covers (seen : gset string) (sorted : list Review.t) (x : Review.t) :
  x ∈ sorted →
  (emailOf x = ""%string → x ∈ keepUnique seen sorted)
  ∧ (emailOf x ∉ seen →
     ∃ y, y ∈ keepUnique seen sorted ∧ emailOf y = emailOf x).
Proof.
  revert seen. induction sorted as [| review rest IH]; intros seen Hx; simpl.
  - by apply elem_of_nil in Hx.
  - destruct (String.eqb (emailOf review) "") eqn:Eempty.
    + apply String.eqb_eq in Eempty.
      apply elem_of_cons in Hx as [-> | Hx].
      * split; [intros _; constructor |]. intros _. eexists. split; [constructor | done].
      * destruct (IH seen Hx) as [H1 H2]. split.
        -- intros He. constructor. by apply H1.
        -- intros Hs. destruct (H2 Hs) as (y & Hy & Hey).
           exists y. split; [by constructor | done].
    + apply String.eqb_neq in Eempty.
      destruct (decide (emailOf review ∈ seen)) as [Hin | Hout].
      * apply elem_of_cons in Hx as [-> | Hx]; [done |]. by apply IH.
      * apply elem_of_cons in Hx as [-> | Hx].
        -- split; [done |]. intros _. eexists. split; [constructor | done].
        -- destruct (IH ({[emailOf review]} ∪ seen) Hx) as [H1 H2]. split.
           ++ intros He. constructor. by apply H1.
           ++ intros Hs. destruct (decide (emailOf x = emailOf review)) as [Heq | Hne].
              ** eexists. split; [constructor | done].
              ** destruct H2 as (y & Hy & Hey).
                 { rewrite not_elem_of_union, not_elem_of_singleton. done. }
                 exists y. split; [by constructor | done].
Qed.

(** The review kept for an e-mail is the first one of the sorted list that
    carries it. *)
Lemma keepUnique_first (seen : gset string) (sorted : list Review.t) (y : Review.t) :
  y ∈ keepUnique seen sorted →
  emailOf y ≠ ""%string →
  ∃ before after,
    sorted = before ++ y :: after
    ∧ ∀ z, z ∈ before → emailOf z ≠ emailOf y.
Proof.
  revert seen. induction sorted as [| review rest IH]; intros seen; simpl.
  - intros H. by apply elem_of_nil in H.
  - intros Hy Hne.
    assert (∀ seen', y ∈ keepUnique seen' rest →
              emailOf review ∈ seen' ∨ emailOf review = ""%string →
              ∃ before after,
                review :: rest = before ++ y :: after
                ∧ ∀ z, z ∈ before → emailOf z ≠ emailOf y) as Hrest.
    { intros seen' Hy' Hseen.
      destruct (IH seen' Hy' Hne) as (before & after & -> & Hbefore).
      exists (review :: before), after. split; [done |].
      intros z Hz. apply elem_of_cons in Hz as [-> | Hz]; [| by apply Hbefore].
      intros Heq. destruct Hseen as [Hin | Hempty]; [| congruence].
      apply keepUnique_fresh in Hy' as [? | Hout]; [done |].
      apply Hout. by rewrite <- Heq. }
    destruct (String.eqb (emailOf review) "") eqn:Eempty.
    + apply String.eqb_eq in Eempty.
      apply elem_of_cons in Hy as [-> | Hy]; [done |].
      apply (Hrest seen Hy). by right.
    + destruct (decide (emailOf review ∈ seen)) as [Hin | Hout].
      * apply (Hrest seen Hy). by left.
      * apply elem_of_cons in Hy as [-> | Hy].
        -- exists [], rest. split; [done |].
           intros z Hz. by apply elem_of_nil in Hz.
        -- apply (Hrest _ Hy). left. set_solver.
Qed.

(** X17. Of the reviews received, the page shows every review without an
    e-mail and exactly one review for each e-mail: the reviews shown are
    reviews received, every e-mail received is shown, and no two reviews
    shown carry the same non-empty e-mail. *)
Theorem reviews_one_per_email (reviewsData : list Review.t) :
  let shown := reviews String_trim String_toLocaleLowerCase reviewsData in
  (∀ x, x ∈ shown → x ∈ reviewsData)
  ∧ (∀ x, x ∈ reviewsData → emailOf x = ""%string → x ∈ shown)
  ∧ (∀ x, x ∈ reviewsData → ∃ y, y ∈ shown ∧ emailOf y = emailOf x)
  ∧ (∀ i j a b,
       shown !! i = Some a → shown !! j = Some b →
       emailOf a = emailOf b → emailOf a ≠ ""%string → i = j).
Proof.
  unfold reviews. cbn zeta.
  set (sorted := sort byCreatedAtDescending reviewsData).
  assert (sorted ≡ₚ reviewsData) as Hperm by apply sort_perm.
  split; [| split; [| split]].
  - intros x Hx. rewrite <- Hperm.
    eapply elem_of_sublist; [exact Hx | apply keepUnique_sublist].
  - intros x Hx He. rewrite <- Hperm in Hx.
    by apply (keepUnique_covers ∅ sorted x Hx).
  - intros x Hx. rewrite <- Hperm in Hx.
    apply (keepUnique_covers ∅ sorted x Hx). set_solver.
  - intros i j a b Ha Hb Heq Hne.
    destruct (Nat.lt_trichotomy i j) as [Hlt | [-> | Hgt]]; [| done |].
    + by destruct (keepUnique_distinct ∅ sorted i j a b Ha Hb Hlt Hne).
    + assert (emailOf b ≠ ""%string) as Hne' by congruence.
      by destruct (keepUnique_distinct ∅ sorted j i b a Hb Ha Hgt Hne').
Qed.

(** X18. When every review carries a valid date, the review shown for an
    e-mail is the latest one received with that e-mail, and the reviews shown
    run from the latest to the earliest. *)
Theorem reviews_latest_per_email (reviewsData : list Review.t) :
  (∀ x, x ∈ reviewsData → ∃ ms, Review.createdAt x = Instant ms) →
  let shown := reviews String_trim String_toLocaleLowerCase reviewsData in
  StronglySorted (λ earlier later, createdTime later ≤ createdTime earlier) shown
  ∧ ∀ x y,
      y ∈ shown → x ∈ reviewsData →
      emailOf y ≠ ""%string → emailOf x = emailOf y →
      createdTime x ≤ createdTime y.
Proof.
  intros Hvalid. unfold reviews. cbn zeta.
  set (sorted := sort byCreatedAtDescending reviewsData).
  assert (sorted ≡ₚ reviewsData) as Hperm by apply sort_perm.
  assert (StronglySorted (λ a b, createdTime b ≤ createdTime a) sorted)
    as Hsorted.
  { apply (sort_sorted byCreatedAtDescending createdTime).
    intros a b Ha Hb. unfold byCreatedAtDescending, createdTime.
    destruct (Hvalid a Ha) as [ta ->], (Hvalid b Hb) as [tb ->]. done. }
  split.
  - eapply StronglySorted_sublist; [apply keepUnique_sublist | exact Hsorted].
  - intros x y Hy Hx Hne Heq.
    destruct (keepUnique_first ∅ sorted y Hy Hne)
      as (before & after & Hsplit & Hbefore).
    rewrite <- Hperm, Hsplit in Hx. rewrite Hsplit in Hsorted.
    apply elem_of_app in Hx as [Hx | Hx]; [by destruct (Hbefore x Hx) |].
    apply elem_of_cons in Hx as [-> | Hx]; [done |].
    apply StronglySorted_suffix in Hsorted.
    apply StronglySorted_inv in Hsorted as [_ Hall].
    by eapply Forall_forall in Hall.
Qed.
End ReviewsShown.

Lemma reviews_latest_per_email_example :
  let first := Review.mk 1 (Some "Ann@Example.org") (Instant 10) 5 None in
  let second := Review.mk 2 (Some "ann@example.org") (Instant 20) 4 None in
  let shown := reviews (λ text, text) toLocaleLowerCase [first; second] in
  StronglySorted (λ earlier later, createdTime later ≤ createdTime earlier) shown
  ∧ ∀ x y,
      y ∈ shown → x ∈ [first; second] →
      normalizeEmail (λ text, text) toLocaleLowerCase (Review.userEmail y)
        ≠ ""%string →
      normalizeEmail (λ text, text) toLocaleLowerCase (Review.userEmail x)
      = normalizeEmail (λ text, text) toLocaleLowerCase (Review.userEmail y) →
      createdTime x ≤ createdTime y.
Proof.
  intros first second.
  apply (reviews_latest_per_email (λ text, text) toLocaleLowerCase [first; second]).
  intros x Hx.
  apply elem_of_cons in Hx as [-> | Hx]; [by eexists |].
  apply list_elem_of_singleton in Hx as ->. by eexists.
Defined.

Example reviews_example :
  let first := Review.mk 1 (Some "Ann@Example.org") (Instant 10) 5 None in
  let second := Review.mk 2 (Some "ann@example.org") (Instant 20) 4 None in
  let anonymous := Review.mk 3 None (Instant 5) 3 None in
  reviews (λ text, text) toLocaleLowerCase [first; anonymous; second]
  = [second; anonymous].
Proof. by vm_compute. Qed.

Section OwnReview.
Context (String_trim String_toLocaleLowerCase : string → string).

Lemma shown_email_unique (reviewsData : list Review.t) (a b : Review.t) :
  a ∈ reviews String_trim String_toLocaleLowerCase reviewsData →
  b ∈ reviews String_trim String_toLocaleLowerCase reviewsData →
  normalizeEmail String_trim String_toLocaleLowerCase (Review.userEmail a)
  = normalizeEmail String_trim String_toLocaleLowerCase (Review.userEmail b) →
  normalizeEmail String_trim String_toLocaleLowerCase (Review.userEmail a)
    ≠ ""%string →
  a = b.
Proof.
  unfold reviews. intros Ha Hb Heq Hne.
  apply list_elem_of_lookup in Ha as [i Hi].
  apply list_elem_of_lookup in Hb as [j Hj].
  destruct (Nat.lt_trichotomy i j) as [Hlt | [-> | Hgt]].
  - by destruct (keepUnique_distinct _ _ _ _ i j a b Hi Hj Hlt Hne).
  - congruence.
  - rewrite Heq in Hne. symmetry in Heq.
    by destruct (keepUnique_distinct _ _ _ _ j i b a Hj Hi Hgt Hne).
Qed.

(** X19. For a signed-in user with a non-empty e-mail, the review found as
    the user's own is the one review shown under that e-mail; none is found
    exactly when no review shown carries it. *)
Theorem own_review_is_the_users
    (userEmail : option string) (reviewsData : list Review.t) (x : Review.t) :
  normalizeEmail String_trim String_toLocaleLowerCase userEmail ≠ ""%string →
  let shown := reviews String_trim String_toLocaleLowerCase reviewsData in
  (x ∈ shown →
   normalizeEmail String_trim String_toLocaleLowerCase (Review.userEmail x)
   = normalizeEmail String_trim String_toLocaleLowerCase userEmail →
   ownReview String_trim String_toLocaleLowerCase userEmail shown = Some x)
  ∧ (ownReview String_trim String_toLocaleLowerCase userEmail shown = None ↔
     ∀ y, y ∈ shown →
          normalizeEmail String_trim String_toLocaleLowerCase (Review.userEmail y)
          ≠ normalizeEmail String_trim String_toLocaleLowerCase userEmail).
Proof.
  intros Hne shown. unfold ownReview.
  set (current := normalizeEmail String_trim String_toLocaleLowerCase userEmail)
    in *.
  pose proof (find_first
    (λ review,
       String.eqb
         (normalizeEmail String_trim String_toLocaleLowerCase
            (Review.userEmail review)) current) shown) as Hfind.
  cbn zeta. destruct (List.find _ shown) as [found |].
  - destruct Hfind as (Hfound & before & after & Hsplit & _).
    apply String.eqb_eq in Hfound. split.
    + intros Hx Hex. f_equal.
      apply (shown_email_unique reviewsData); [| done | congruence | congruence].
      fold shown. rewrite Hsplit. apply elem_of_app. right. constructor.
    + split; [done |]. intros Hnone. destruct (Hnone found); [| done].
      rewrite Hsplit. apply elem_of_app. right. constructor.
  - split.
    + intros Hx Hex. specialize (Hfind x Hx).
      apply String.eqb_neq in Hfind. done.
    + split; [| done]. intros _ y Hy. specialize (Hfind y Hy).
      by apply String.eqb_neq in Hfind.
Qed.
End OwnReview.

Lemma own_review_is_the_users_example :
  let first := Review.mk 1 (Some "Ann@Example.org") (Instant 10) 5 None in
  let second := Review.mk 2 (Some "bob@example.org") (Instant 20) 4 None in
  let shown := reviews (λ text, text) toLocaleLowerCase [first; second] in
  (first ∈ shown →
   normalizeEmail (λ text, text) toLocaleLowerCase (Review.userEmail first)
   = normalizeEmail (λ text, text) toLocaleLowerCase (Some "ann@example.org"%string) →
   ownReview (λ text, text) toLocaleLowerCase (Some "ann@example.org"%string) shown
   = Some first)
  ∧ (ownReview (λ text, text) toLocaleLowerCase (Some "ann@example.org"%string) shown
     = None ↔
     ∀ y, y ∈ shown →
          normalizeEmail (λ text, text) toLocaleLowerCase (Review.userEmail y)
          ≠ normalizeEmail (λ text, text) toLocaleLowerCase
              (Some "ann@example.org"%string)).
Proof.
  intros first second.
  apply (own_review_is_the_users (λ text, text) toLocaleLowerCase
           (Some "ann@example.org"%string) [first; second] first).
  vm_compute. discriminate.
Defined.

(** ** The catalogue behind the list of my books *)

Lemma bookMapOf_snoc (books : list ApiBook.t) (item : ApiBook.t) :
  bookMapOf (books ++ [item]) = <[ApiBook.id item := item]> (bookMapOf books).
Proof. unfold bookMapOf. by rewrite foldl_snoc. Qed.

(** X20. The catalogue is looked up by id, the last entry with an id standing
    for it; a reservation of a book the catalogue does not hold is listed with
    the status derived without a book status, its own title or the "untitled"
    text, and a dash for the author. *)
Theorem owned_book_card_source
    (books : list ApiBook.t) (reservation : Reservation.t) :
  bookMapOf books !! Reservation.bookId reservation
  = List.find
      (λ item, bool_decide (ApiBook.id item = Reservation.bookId reservation))
      (rev books)
  ∧ ((∀ item, item ∈ books →
              ApiBook.id item ≠ Reservation.bookId reservation) →
     toMyBook (bookMapOf books) reservation
     = {| MyBook.id := Reservation.bookId reservation;
          MyBook.title :=
            match Reservation.bookTitle reservation with
            | Some text => Verbatim text
            | None => Translated "book.untitled"
            end;
          MyBook.author := "—"%string;
          MyBook.coverUrl := None;
          MyBook.status := getMyBookStatus reservation None;
          MyBook.reservation := reservation |}).
Proof.
  assert (∀ key, bookMapOf books !! key
                 = List.find (λ item, bool_decide (ApiBook.id item = key))
                     (rev books)) as Hlookup.
  { intros key. induction books as [| item seen IH] using rev_ind; [done |].
    rewrite bookMapOf_snoc, rev_unit. simpl.
    rewrite lookup_insert. case_decide as Hid.
    - by rewrite bool_decide_eq_true_2.
    - by rewrite bool_decide_eq_false_2. }
  split; [apply Hlookup |].
  intros Habsent. unfold toMyBook. rewrite Hlookup.
  pose proof (find_first
    (λ item, bool_decide (ApiBook.id item = Reservation.bookId reservation))
    (rev books)) as Hfind.
  destruct (List.find _ (rev books)) as [found |]; [| done].
  destruct Hfind as (Hfound & before & after & Hsplit & _).
  apply bool_decide_eq_true in Hfound.
  destruct (Habsent found); [| done].
  apply list_elem_of_In, in_rev, list_elem_of_In.
  rewrite Hsplit. apply elem_of_app. right. constructor.
Qed.
